(** * Prompt segmentation of the virtual try-on relay

    A shallow embedding of [parseMultiplePrompts] and
    [createPromptVariation], which the repository ships twice: once in
    [src/server.js] (module [ServerJs] below) and once, in a later form with
    duplicate detection, in [src/unnamed/part_000] (module [Part000]).

    Both functions are string code built from JavaScript's [String] and
    [RegExp] built-ins, so the development starts with those: strings as
    sequences of UTF-16 code units, a backtracking matcher for the fragment
    of regular expressions the source uses, and [match], [replace], [split]
    and [trim] on top of it. *)

From Stdlib Require Import String Ascii DecimalString DecimalZ.
From Stdlib Require Import List ZArith NArith Lia Bool.
Import ListNotations.

Set Implicit Arguments.

(** ** JavaScript strings *)

(** A JavaScript string is a finite sequence of 16-bit code units. *)
Definition char16 := N.
Definition jsstring := list char16.

(** A literal of the source, all of whose characters are ASCII. *)
Definition js (s : string) : jsstring :=
  map N_of_ascii (list_ascii_of_string s).

Definition char16_eqb (a b : char16) : bool := N.eqb a b.

Fixpoint jsstring_eqb (a b : jsstring) : bool :=
  match a, b with
  | [], [] => true
  | x :: a', y :: b' => char16_eqb x y && jsstring_eqb a' b'
  | _, _ => false
  end.

(** [S.substring(from, to)] for [from <= to <= S.length]. *)
Definition substring (s : jsstring) (from to : nat) : jsstring :=
  firstn (to - from) (skipn from s).

(** ECMAScript WhiteSpace and LineTerminator code points: the set matched by
    [\s] and removed by [trim]. *)
Definition isWhiteSpace (c : char16) : bool :=
  ((9 <=? c) && (c <=? 13) || (c =? 32) || (c =? 160) || (c =? 5760)
   || (8192 <=? c) && (c <=? 8202) || (c =? 8232) || (c =? 8233)
   || (c =? 8239) || (c =? 8287) || (c =? 12288) || (c =? 65279))%N.

(** LineTerminator: the code units that [.] does not match. *)
Definition isLineTerminator (c : char16) : bool :=
  ((c =? 10) || (c =? 13) || (c =? 8232) || (c =? 8233))%N.

Definition isDigit (c : char16) : bool := ((48 <=? c) && (c <=? 57))%N.

(** Canonicalize of a non-unicode, ignore-case RegExp.  The patterns of the
    source only hold ASCII characters, and a code unit of 128 or more never
    canonicalizes to an ASCII one, so only the ASCII letters matter. *)
Definition canonicalize (c : char16) : char16 :=
  if ((97 <=? c) && (c <=? 122))%N then (c - 32)%N else c.

Fixpoint trimStart (s : jsstring) : jsstring :=
  match s with
  | c :: s' => if isWhiteSpace c then trimStart s' else s
  | [] => []
  end.

Definition trimEnd (s : jsstring) : jsstring := rev (trimStart (rev s)).

(** [S.trim()] *)
Definition trim (s : jsstring) : jsstring := trimEnd (trimStart s).

(** [Number.prototype.toString] on an integer (of magnitude below 10^21, where
    JavaScript switches to exponent notation), as a template literal
    substitutes it. *)
Definition numberToString (z : Z) : jsstring :=
  js (NilZero.string_of_int (Z.to_int z)).

(** ** Regular expressions *)

Module RegExp.

(** Character classes of the source's patterns. *)
Inductive cclass :=
| CAll                 (* [^] *)
| CDot                 (* .   *)
| CSpace               (* \s  *)
| CDigit               (* \d  *)
| CChar (c : char16).  (* a pattern character *)

Inductive regex :=
| Empty
| Char (c : cclass)
| Seq (r1 r2 : regex)
| Alt (r1 r2 : regex)                  (* r1|r2 *)
| Star (greedy : bool) (c : cclass)    (* c* and c*? *)
| Group (r : regex)                    (* ( r ), capture 1 *)
| Lookahead (r : regex)                (* (?= r ) *)
| Bol                                  (* ^ (no m flag) *)
| Eol.                                 (* $ (no m flag) *)

(** [test ic c x]: code unit [x] belongs to class [c], under the [i] flag
    when [ic]. *)
Definition test (ic : bool) (c : cclass) (x : char16) : bool :=
  match c with
  | CAll => true
  | CDot => negb (isLineTerminator x)
  | CSpace => isWhiteSpace x
  | CDigit => isDigit x
  | CChar p =>
      if ic then char16_eqb (canonicalize x) (canonicalize p)
      else char16_eqb x p
  end.

(** The end index of a match and the value of capture 1. *)
Definition MatchResult := (nat * option jsstring)%type.

(** A continuation receives the captures, the current index and the part of
    the input from that index on. *)
Definition Continuation := option jsstring -> nat -> jsstring -> option MatchResult.

(** Quantified class: the greedy form consumes first and gives characters
    back; the lazy form tries the continuation first. *)
Fixpoint star (greedy : bool) (t : char16 -> bool)
    (k : nat -> jsstring -> option MatchResult) (pos : nat) (s : jsstring)
    : option MatchResult :=
  match s with
  | x :: s' =>
      if greedy then
        if t x then
          match star greedy t k (S pos) s' with
          | Some res => Some res
          | None => k pos s
          end
        else k pos s
      else
        match k pos s with
        | Some res => Some res
        | None => if t x then star greedy t k (S pos) s' else None
        end
  | [] => k pos s
  end.

(** The backtracking matcher of ECMAScript, in continuation-passing style:
    alternatives are tried left to right and the first success is the
    result. *)
Fixpoint matcher (ic : bool) (r : regex) (k : Continuation)
    (cap : option jsstring) (pos : nat) (s : jsstring) : option MatchResult :=
  match r with
  | Empty => k cap pos s
  | Char c =>
      match s with
      | x :: s' => if test ic c x then k cap (S pos) s' else None
      | [] => None
      end
  | Seq r1 r2 =>
      matcher ic r1 (fun cap' pos' s' => matcher ic r2 k cap' pos' s') cap pos s
  | Alt r1 r2 =>
      match matcher ic r1 k cap pos s with
      | Some res => Some res
      | None => matcher ic r2 k cap pos s
      end
  | Star greedy c => star greedy (test ic c) (k cap) pos s
  | Group r1 =>
      matcher ic r1
        (fun _ pos' s' => k (Some (firstn (pos' - pos) s)) pos' s') cap pos s
  | Lookahead r1 =>
      match matcher ic r1 (fun cap' pos' _ => Some (pos', cap')) cap pos s with
      | Some (_, cap') => k cap' pos s
      | None => None
      end
  | Bol => if Nat.eqb pos 0 then k cap pos s else None
  | Eol => match s with [] => k cap pos s | _ :: _ => None end
  end.

(** A compiled pattern: its body and its [i] flag. *)
Record pattern := { body : regex; ignoreCase : bool }.

(** One match attempt at index [pos], where [s] is the input from [pos] on. *)
Definition matchHere (p : pattern) (pos : nat) (s : jsstring) : option MatchResult :=
  matcher (ignoreCase p) (body p) (fun cap pos' _ => Some (pos', cap)) None pos s.

(** The matches of a global ([g]) pattern, as the loop of
    [RegExp.prototype[Symbol.match]] and [[Symbol.replace]] finds them:
    each search starts at the end of the previous match, one code unit
    further after an empty match.  The input is walked once; [skip] counts
    the code units still covered by the previous match. *)
Fixpoint execAll (p : pattern) (s : jsstring) (pos skip : nat)
    : list (nat * nat * option jsstring) :=
  match skip with
  | S k =>
      match s with
      | [] => []
      | _ :: s' => execAll p s' (S pos) k
      end
  | O =>
      match matchHere p pos s with
      | Some (e, cap) =>
          (pos, e, cap) ::
          match s with
          | [] => []
          | _ :: s' => execAll p s' (S pos) (e - pos - 1)
          end
      | None =>
          match s with
          | [] => []
          | _ :: s' => execAll p s' (S pos) 0
          end
      end
  end.

(** [S.match(p)] for a global pattern: [null] ([None]) without a match,
    else the array of matched substrings. *)
Definition jsMatch (p : pattern) (s : jsstring) : option (list jsstring) :=
  match execAll p s 0 0 with
  | [] => None
  | ms => Some (map (fun m => substring s (fst (fst m)) (snd (fst m))) ms)
  end.

(** [S.replace(p, repl)] for a global pattern, where [repl] gives the
    replacement from capture 1.  The same walk as [execAll]: an unmatched
    code unit is copied, a match is replaced, and the code unit at an empty
    match is kept after the replacement. *)
Fixpoint replaceAll (p : pattern) (repl : option jsstring -> jsstring)
    (s : jsstring) (pos skip : nat) : jsstring :=
  match skip with
  | S k =>
      match s with
      | [] => []
      | _ :: s' => replaceAll p repl s' (S pos) k
      end
  | O =>
      match matchHere p pos s with
      | Some (e, cap) =>
          repl cap ++
          match s with
          | [] => []
          | c :: s' =>
              if Nat.eqb e pos then c :: replaceAll p repl s' (S pos) 0
              else replaceAll p repl s' (S pos) (e - pos - 1)
          end
      | None =>
          match s with
          | [] => []
          | c :: s' => c :: replaceAll p repl s' (S pos) 0
          end
      end
  end.

Definition jsReplace (p : pattern) (repl : option jsstring -> jsstring)
    (s : jsstring) : jsstring :=
  replaceAll p repl s 0 0.

(** The replacement strings of the source: ['$1'], and a string without [$]. *)
Definition dollar1 (cap : option jsstring) : jsstring :=
  match cap with Some c => c | None => [] end.

Definition constant (r : jsstring) (_ : option jsstring) : jsstring := r.

(** The loop of [RegExp.prototype[Symbol.split]] (no limit, no captures in
    the separator): [q] is the index tried, [p] the end of the last
    separator; a separator match that ends at [p] is passed over. *)
Fixpoint splitLoop (pt : pattern) (whole s : jsstring) (q p skip : nat)
    : list jsstring :=
  match s with
  | [] => [substring whole p (length whole)]
  | _ :: s' =>
      match skip with
      | S k => splitLoop pt whole s' (S q) p k
      | O =>
          match matchHere pt q s with
          | None => splitLoop pt whole s' (S q) p 0
          | Some (e0, _) =>
              let e := Nat.min e0 (length whole) in
              if Nat.eqb e p then splitLoop pt whole s' (S q) p 0
              else substring whole p q :: splitLoop pt whole s' (S q) e (e - q - 1)
          end
      end
  end.

(** [S.split(p)] *)
Definition jsSplit (pt : pattern) (s : jsstring) : list jsstring :=
  match s with
  | [] => match matchHere pt 0 [] with Some _ => [] | None => [[]] end
  | _ :: _ => splitLoop pt s s 0 0 0
  end.

(** Pattern-building helpers. *)
Definition lit (s : string) : regex :=
  fold_right (fun a r => Seq (Char (CChar (N_of_ascii a))) r) Empty
    (list_ascii_of_string s).

Fixpoint seqs (rs : list regex) : regex :=
  match rs with
  | [] => Empty
  | [r] => r
  | r :: rs' => Seq r (seqs rs')
  end.

Fixpoint alts (r : regex) (rs : list regex) : regex :=
  match rs with
  | [] => r
  | r' :: rs' => Alt r (alts r' rs')
  end.

Definition plus (c : cclass) : regex := Seq (Char c) (Star true c).

End RegExp.

Import RegExp.

(** ** Control flow *)

(** How a call ends: with a value, with a thrown exception, or, in the model
    only, because the bound on the iterations of a [while] loop ran out. *)
Inductive completion (A : Type) :=
| Normal (a : A)
| Throw
| OutOfFuel.
Arguments Normal {A} a.
Arguments Throw {A}.
Arguments OutOfFuel {A}.

(** What one evaluation of a [while] loop's guard and body does. *)
Inductive iteration (St : Type) :=
| Continue (st : St)   (* the body ran to its end *)
| Break (st : St)      (* the body left the loop with [break] *)
| Exit                 (* the guard was false *)
| Raise.               (* the body threw *)
Arguments Continue {St} st.
Arguments Break {St} st.
Arguments Exit {St}.
Arguments Raise {St}.

(** [while (guard) body]: the final state, and whether the loop was left
    with [break]. *)
Fixpoint whileLoop (St : Type) (step : St -> iteration St) (fuel : nat) (st : St)
    : completion (St * bool) :=
  match fuel with
  | O => OutOfFuel
  | S fuel' =>
      match step st with
      | Continue st' => whileLoop step fuel' st'
      | Break st' => Normal (st', true)
      | Exit => Normal (st, false)
      | Raise => Throw
      end
  end.

(** [a[i]] for an array [a] and an integer [i]: [undefined] out of range. *)
Definition arrayGet (A : Type) (a : list A) (i : Z) : option A :=
  if (i <? 0)%Z then None else nth_error a (Z.to_nat i).

(** [a.slice(0, to)] for an integer [to]; a negative [to] counts from the
    end. *)
Definition slice0 (A : Type) (a : list A) (to : Z) : list A :=
  let len := Z.of_nat (length a) in
  let final := if (to <? 0)%Z then Z.max (len + to) 0 else Z.min to len in
  firstn (Z.to_nat final) a.

(** [x || y] where [x] is a string or [undefined]: the empty string is
    falsy. *)
Definition orElse (x : option jsstring) (y : jsstring) : jsstring :=
  match x with
  | Some ((_ :: _) as v) => v
  | _ => y
  end.

(** ** The patterns of [parseMultiplePrompts] *)

Definition ws : regex := Star true CSpace.      (* \s* *)
Definition digits : regex := Star true CDigit.  (* \d* *)

(** [###\s*Prompt\s*\d*:] *)
Definition hashPromptHeader : regex :=
  seqs [lit "###"; ws; lit "Prompt"; ws; digits; lit ":"].
(** [Prompt\s*\d*:] *)
Definition promptHeader : regex := seqs [lit "Prompt"; ws; digits; lit ":"].
(** [Image\s*\d*:] *)
Definition imageHeader : regex := seqs [lit "Image"; ws; digits; lit ":"].
(** [Prompt\s*for\s*AI\s*Image\s*Editing] *)
Definition editingHeader : regex :=
  seqs [lit "Prompt"; ws; lit "for"; ws; lit "AI"; ws; lit "Image"; ws; lit "Editing"].

(** The four alternatives of the header group; [[^]*?] belongs to the last
    one only. *)
Definition headerGroup : regex :=
  alts hashPromptHeader
    [promptHeader; imageHeader; Seq editingHeader (Star false CAll)].

(** [/(?:###\s*Prompt\s*\d*:|Prompt\s*\d*:|Image\s*\d*:|Prompt\s*for\s*AI\s*Image\s*Editing[^]*?)(?=###\s*Prompt\s*\d*:|Prompt\s*\d*:|Image\s*\d*:|Prompt\s*for\s*AI\s*Image\s*Editing|$)/gi] *)
Definition structuredPattern : pattern :=
  {| body := Seq headerGroup
               (Lookahead (alts hashPromptHeader
                             [promptHeader; imageHeader; editingHeader; Eol]));
     ignoreCase := true |}.

(** [/^(?:###\s*Prompt\s*\d*:|Prompt\s*\d*:|Image\s*\d*:|Prompt\s*for\s*AI\s*Image\s*Editing[^]*?)/gi] *)
Definition headerPattern : pattern :=
  {| body := Seq Bol headerGroup; ignoreCase := true |}.

(** [/\*\*(.*?)\*\*/g] *)
Definition boldPattern : pattern :=
  {| body := seqs [lit "**"; Group (Star false CDot); lit "**"];
     ignoreCase := false |}.

(** [/\*(.*?)\*/g] *)
Definition italicPattern : pattern :=
  {| body := seqs [lit "*"; Group (Star false CDot); lit "*"];
     ignoreCase := false |}.

(** [/###\s*Prompt\s*\d*:/i] *)
Definition sectionPattern : pattern :=
  {| body := hashPromptHeader; ignoreCase := true |}.

(** [/(?=\d+\.\s)/] *)
Definition numberedPattern : pattern :=
  {| body := Lookahead (seqs [plus CDigit; lit "."; Char CSpace]);
     ignoreCase := false |}.

Definition newline : regex := Char (CChar 10%N).

(** [/\n\s*\n/] *)
Definition paragraphPattern : pattern :=
  {| body := seqs [newline; ws; newline]; ignoreCase := false |}.

(** [/\s+/g] *)
Definition whitespacePattern : pattern :=
  {| body := plus CSpace; ignoreCase := false |}.

(** [.replace(/^(?:...)/gi, '')] *)
Definition removeHeader (s : jsstring) : jsstring :=
  jsReplace headerPattern (constant []) s.

(** [.replace(/\*\*(.*?)\*\*/g, '$1')] then [.replace(/\*(.*?)\*/g, '$1')] *)
Definition removeMarkdown (s : jsstring) : jsstring :=
  jsReplace italicPattern dollar1 (jsReplace boldPattern dollar1 s).

(** The clean-up of the whole text ([mainContent]): header, emphasis, trim. *)
Definition stripMarkup (s : jsstring) : jsstring :=
  trim (removeMarkdown (removeHeader s)).

(** A template literal with one [${index}] substitution. *)
Definition template (before : string) (index : Z) (after : string) : jsstring :=
  js before ++ numberToString index ++ js after.

(** The four templates that both files have. *)
Definition commonVariations (index : Z) : list jsstring :=
  [ template "ARTISTIC VARIATION " index ": Replace the person's current clothing with the uploaded clothing items, maintaining their face and body unchanged. Apply dramatic artistic lighting with creative shadows and rim lighting effects. Position the person in a dynamic pose with emotional expression against an artistic background with depth and texture. Use advanced composition techniques including rule of thirds and creative depth of field for maximum visual impact.";
    template "CREATIVE MASTERPIECE " index ": Remove the person's current clothing and dress them in the uploaded clothing items, keeping their face and body appearance the same. Create a visually stunning composition with artistic lighting, creative pose variations, and dramatic background elements. Apply mood and atmosphere through sophisticated color grading and artistic ambiance for a truly artistic result.";
    template "VISUAL ARTWORK " index ": Transform the person's clothing to the uploaded items while preserving their facial features and body structure. Craft an artistic visual experience with creative lighting setups, dynamic pose expressions, and artistic background transformations. Incorporate advanced photography techniques including selective focus, artistic bokeh, and creative composition for a masterpiece result.";
    template "ARTISTIC ENHANCEMENT " index ": Replace the person's current clothing with the uploaded clothing items, maintaining their face and body unchanged. Create an artistic visual narrative with dramatic lighting, creative shadow play, and sophisticated composition. Apply color theory principles and artistic depth of field effects for a creatively enhanced, visually stunning image." ].

(** ** [src/server.js] *)

Module ServerJs.

Definition creativeVariations (index : Z) : list jsstring :=
  commonVariations index.

(** [createPromptVariation(basePrompt, index)]; [None] is [undefined].
    [%] is JavaScript's remainder, with the sign of the dividend. *)
Definition createPromptVariation (basePrompt : jsstring) (index : Z)
    : option jsstring :=
  arrayGet (creativeVariations index)
    (Z.rem index (Z.of_nat (length (creativeVariations index)))).

Section Parse.
Variable promptText : jsstring.
Variable expectedCount : Z.

Definition below (prompts : list jsstring) : bool :=
  (Z.of_nat (length prompts) <? expectedCount)%Z.

(** [if (prompt.length > 100) prompts.push(prompt)] *)
Definition tryPush (prompts : list jsstring) (prompt : jsstring) : list jsstring :=
  if (100 <? length prompt)%nat then prompts ++ [prompt] else prompts.

(** [for (...; i < items.length && prompts.length < expectedCount; i++)],
    over the items from index [i] on, with [clean] the body's clean-up. *)
Fixpoint forLoop (clean : jsstring -> jsstring) (items : list jsstring)
    (prompts : list jsstring) : list jsstring :=
  match items with
  | [] => prompts
  | item :: rest =>
      if below prompts then forLoop clean rest (tryPush prompts (clean item))
      else prompts
  end.

Definition structuredStage (prompts : list jsstring) : list jsstring :=
  match jsMatch structuredPattern promptText with
  | Some ((_ :: _) as structuredPrompts) =>
      forLoop (fun item => removeMarkdown (trim (removeHeader (trim item))))
        structuredPrompts prompts
  | _ => prompts
  end.

Definition numberedStage (prompts : list jsstring) : list jsstring :=
  if below prompts then
    let numberedSplit := jsSplit numberedPattern promptText in
    if (1 <? length numberedSplit)%nat
    then forLoop trim (skipn 1 numberedSplit) prompts
    else prompts
  else prompts.

Definition mainContentStage (prompts : list jsstring) : list jsstring :=
  if below prompts then tryPush prompts (stripMarkup promptText) else prompts.

Definition paragraphStage (prompts : list jsstring) : list jsstring :=
  if below prompts then
    forLoop (fun item => removeMarkdown (trim item))
      (jsSplit paragraphPattern promptText) prompts
  else prompts.

(** The four extraction stages, from an empty [prompts]. *)
Definition extract : list jsstring :=
  paragraphStage (mainContentStage (numberedStage (structuredStage []))).

(** One turn of [while (prompts.length < expectedCount)].  An [undefined]
    variation is pushed, and [variation.substring] in the log line then
    throws. *)
Definition padStep (prompts : list jsstring) : iteration (list jsstring) :=
  if below prompts then
    let basePrompt := orElse (nth_error prompts 0) promptText in
    match createPromptVariation basePrompt (Z.of_nat (length prompts) + 1) with
    | Some variation => Continue (prompts ++ [variation])
    | None => Raise
    end
  else Exit.

Definition parseMultiplePromptsFuel (fuel : nat) : completion (list jsstring) :=
  match whileLoop padStep fuel extract with
  | Normal (prompts, _) => Normal (slice0 prompts expectedCount)
  | Throw => Throw
  | OutOfFuel => OutOfFuel
  end.

(** [parseMultiplePrompts(promptText, expectedCount)]: the loop is given one
    turn per requested prompt and one for the last test of its guard. *)
Definition parseMultiplePrompts : completion (list jsstring) :=
  parseMultiplePromptsFuel (S (Z.to_nat expectedCount)).

End Parse.
End ServerJs.

(** ** [src/unnamed/part_000] *)

Module Part000.

Definition creativeVariations (index : Z) : list jsstring :=
  commonVariations index ++
  [ template "CINEMATIC TRANSFORMATION " index ": Replace the person's current clothing with the uploaded clothing items while preserving their face and body exactly. Create a cinematic masterpiece with dramatic film lighting, atmospheric effects, and storytelling composition. Use advanced cinematography techniques including depth of field, creative framing, and mood lighting for a movie-quality result.";
    template "FASHION EDITORIAL " index ": Transform the person's clothing to the uploaded items, keeping their face and body unchanged. Create a high-fashion editorial scene with dramatic studio lighting, artistic poses, and sophisticated composition. Apply fashion photography techniques including creative lighting, artistic shadows, and professional styling for a magazine-quality result.";
    template "STREET ART MASTERPIECE " index ": Replace the person's current clothing with the uploaded clothing items while maintaining their face and body. Create a vibrant street photography scene with urban graffiti backgrounds, dynamic poses, and authentic street aesthetics. Use creative urban lighting, candid photography techniques, and artistic street elements for a dynamic result.";
    template "VINTAGE GLAMOUR " index ": Transform the person's clothing to the uploaded items, preserving their face and body exactly. Create a nostalgic vintage scene with period-appropriate styling, artistic film grain effects, and classic photography techniques. Apply vintage color grading, retro aesthetics, and timeless composition for a nostalgic masterpiece.";
    template "MINIMALIST ELEGANCE " index ": Replace the person's current clothing with the uploaded clothing items while keeping their face and body unchanged. Create a clean, minimalist composition with sophisticated negative space, artistic simplicity, and maximum visual impact. Use creative minimalism, elegant lighting, and sophisticated composition for a refined result.";
    template "PROFESSIONAL SOPHISTICATION " index ": Transform the person's clothing to the uploaded items, maintaining their face and body exactly. Create a professional corporate scene with sophisticated business aesthetics, polished lighting, and executive photography techniques. Apply corporate styling, professional composition, and refined business aesthetics for a polished result." ].

(** [createPromptVariation(basePrompt, index)]; [None] is [undefined]. *)
Definition createPromptVariation (basePrompt : jsstring) (index : Z)
    : option jsstring :=
  arrayGet (creativeVariations index)
    (Z.rem index (Z.of_nat (length (creativeVariations index)))).

(** [prompts] and the [Set] [seenPrompts], of which the function only asks
    [has] and [add]. *)
Record state := { prompts : list jsstring; seenPrompts : list jsstring }.

Definition has (seen : list jsstring) (x : jsstring) : bool :=
  existsb (jsstring_eqb x) seen.

Section Parse.
(** [String.prototype.toLowerCase] follows the Unicode case tables, which are
    no part of the repository: it is a parameter of the model. *)
Variable toLowerCase : jsstring -> jsstring.
Variable promptText : jsstring.
Variable expectedCount : Z.

(** [x.toLowerCase().replace(/\s+/g, ' ').trim()] *)
Definition normalize (x : jsstring) : jsstring :=
  trim (jsReplace whitespacePattern (constant (js " ")) (toLowerCase x)).

Definition below (st : state) : bool :=
  (Z.of_nat (length (prompts st)) <? expectedCount)%Z.

Definition push (st : state) (prompt normalized : jsstring) : state :=
  {| prompts := prompts st ++ [prompt];
     seenPrompts := normalized :: seenPrompts st |}.

(** [if (prompt.length > 100 && !seenPrompts.has(normalizedPrompt))
       { prompts.push(prompt); seenPrompts.add(normalizedPrompt); }] *)
Definition tryPush (st : state) (prompt : jsstring) : state :=
  let normalizedPrompt := normalize prompt in
  if (100 <? length prompt)%nat && negb (has (seenPrompts st) normalizedPrompt)
  then push st prompt normalizedPrompt
  else st.

(** [for (...; i < items.length && prompts.length < expectedCount; i++)],
    over the items from index [i] on, with [clean] the body's clean-up. *)
Fixpoint forLoop (clean : jsstring -> jsstring) (items : list jsstring)
    (st : state) : state :=
  match items with
  | [] => st
  | item :: rest =>
      if below st then forLoop clean rest (tryPush st (clean item)) else st
  end.

Definition structuredStage (st : state) : state :=
  match jsMatch structuredPattern promptText with
  | Some ((_ :: _) as structuredPrompts) =>
      forLoop (fun item => removeMarkdown (trim (removeHeader (trim item))))
        structuredPrompts st
  | _ => st
  end.

Definition sectionStage (st : state) : state :=
  if below st then
    let promptSections := jsSplit sectionPattern promptText in
    forLoop (fun item => removeMarkdown (trim item)) (skipn 1 promptSections) st
  else st.

Definition numberedStage (st : state) : state :=
  if below st then
    let numberedSplit := jsSplit numberedPattern promptText in
    if (1 <? length numberedSplit)%nat
    then forLoop (fun item => removeMarkdown (trim item)) (skipn 1 numberedSplit) st
    else st
  else st.

Definition mainContentStage (st : state) : state :=
  if below st then tryPush st (stripMarkup promptText) else st.

Definition paragraphStage (st : state) : state :=
  if below st then
    forLoop (fun item => removeMarkdown (trim item))
      (jsSplit paragraphPattern promptText) st
  else st.

(** The five extraction stages, from an empty [prompts] and [seenPrompts]. *)
Definition extract : state :=
  paragraphStage
    (mainContentStage
       (numberedStage
          (sectionStage
             (structuredStage {| prompts := []; seenPrompts := [] |})))).

(** One turn of [while (prompts.length < expectedCount)].  On an [undefined]
    variation, [variation.toLowerCase()] throws. *)
Definition padStep (st : state) : iteration state :=
  if below st then
    let basePrompt := orElse (nth_error (prompts st) 0) promptText in
    match createPromptVariation basePrompt (Z.of_nat (length (prompts st)) + 1) with
    | Some variation =>
        let normalizedVariation := normalize variation in
        if negb (has (seenPrompts st) normalizedVariation)
        then Continue (push st variation normalizedVariation)
        else Break st
    | None => Raise
    end
  else Exit.

(** The padding loop from the extracted state: the final state, and whether
    the loop stopped at a duplicate. *)
Definition padding (fuel : nat) : completion (state * bool) :=
  whileLoop padStep fuel extract.

Definition parseMultiplePromptsFuel (fuel : nat) : completion (list jsstring) :=
  match padding fuel with
  | Normal (st, _) => Normal (slice0 (prompts st) expectedCount)
  | Throw => Throw
  | OutOfFuel => OutOfFuel
  end.

(** [parseMultiplePrompts(promptText, expectedCount)]: the loop is given one
    turn per requested prompt and one for the last test of its guard. *)
Definition parseMultiplePrompts : completion (list jsstring) :=
  parseMultiplePromptsFuel (S (Z.to_nat expectedCount)).

End Parse.

(** [toLowerCase] on ASCII text, where only [A] to [Z] change. *)
Definition asciiLower (c : char16) : char16 :=
  if ((65 <=? c) && (c <=? 90))%N then (c + 32)%N else c.

Definition asciiLowerCase (s : jsstring) : jsstring := map asciiLower s.

Definition isAscii (c : char16) : bool := (c <? 128)%N.

(** What the theorems on concrete texts ask of [toLowerCase]: on ASCII text
    it is the ASCII lower-casing. *)
Definition LowersAscii (toLowerCase : jsstring -> jsstring) : Prop :=
  forall s, forallb isAscii s = true -> toLowerCase s = asciiLowerCase s.

End Part000.

(** ** Vocabulary of the properties *)

(** How many prompts are still missing: the variant of the padding loop. *)
Definition deficit (expectedCount : Z) (count : nat) : nat :=
  Z.to_nat (expectedCount - Z.of_nat count).

(** At most [expectedCount] prompts. *)
Definition bounded (expectedCount : Z) (prompts : list jsstring) : Prop :=
  (Z.of_nat (length prompts) <= expectedCount)%Z.

(** The invariant of [parseMultiplePrompts] in [src/unnamed/part_000]:
    [seenPrompts] holds the normalized forms of [prompts], these are
    pairwise different, and there are at most [expectedCount] of them. *)
Record Invariant (toLowerCase : jsstring -> jsstring) (expectedCount : Z)
    (st : Part000.state) : Prop := {
  inv_seen :
    Part000.seenPrompts st
    = rev (map (Part000.normalize toLowerCase) (Part000.prompts st));
  inv_nodup : NoDup (map (Part000.normalize toLowerCase) (Part000.prompts st));
  inv_count : bounded expectedCount (Part000.prompts st)
}.

(** Every item is at most 100 code units long once cleaned. *)
Definition Short (clean : jsstring -> jsstring) (items : list jsstring) : Prop :=
  Forall (fun x => length (clean x) <= 100) items.

Definition isStar (x : char16) : bool := char16_eqb x 42%N.

(** The index of the first [*] of [s], if no line terminator comes before
    it: where the lazy [(.*?)] of the italic pattern stops. *)
Fixpoint closing (s : jsstring) : option nat :=
  match s with
  | [] => None
  | x :: s' =>
      if isStar x then Some 0
      else if isLineTerminator x then None
      else option_map S (closing s')
  end.

(** The same for the two [*] that close the bold pattern. *)
Fixpoint closing2 (s : jsstring) : option nat :=
  match s with
  | [] => None
  | x :: s' =>
      if isStar x && match s' with y :: _ => isStar y | [] => false end then Some 0
      else if isLineTerminator x then None
      else option_map S (closing2 s')
  end.

(** No line of [s] holds two [*]: after a [*] the line ends before the next. *)
Fixpoint noPair (s : jsstring) : Prop :=
  match s with
  | [] => True
  | x :: s' => (isStar x = true -> closing s' = None) /\ noPair s'
  end.

(** A text that does not start with white space. *)
Definition headOk (s : jsstring) : Prop :=
  match s with
  | [] => True
  | x :: _ => isWhiteSpace x = false
  end.

(** ** Texts used below *)

(** The third template with index 2, as the upstream model could answer it. *)
Definition visualArtwork2 : jsstring :=
  js "VISUAL ARTWORK 2: Transform the person's clothing to the uploaded items while preserving their facial features and body structure. Craft an artistic visual experience with creative lighting setups, dynamic pose expressions, and artistic background transformations. Incorporate advanced photography techniques including selective focus, artistic bokeh, and creative composition for a masterpiece result.".

Definition blockText : jsstring :=
  js "Replace the person's current clothing with the uploaded clothing items, maintaining their face and body unchanged, in a studio.".

(** Two [### Prompt N:] blocks with the same content, a blank line between. *)
Definition twoBlocks : jsstring :=
  js "### Prompt 1: " ++ blockText ++ [10; 10]%N ++ js "### Prompt 2: " ++ blockText.

(** What is left of [twoBlocks] without its first header. *)
Definition twoBlocksRest : jsstring :=
  blockText ++ [10; 10]%N ++ js "### Prompt 2: " ++ blockText.

(** [k. ] and 110 times the letter [c]. *)
Definition numberedItem (k : Z) (c : string) : jsstring :=
  numberToString k ++ js ". " ++ concat (repeat (js c) 110).

(** A numbered list of ten items, one per line, that starts with [1. ]. *)
Definition tenItems : jsstring :=
  numberedItem 1 "a" ++ [10%N] ++ numberedItem 2 "b" ++ [10%N] ++
  numberedItem 3 "c" ++ [10%N] ++ numberedItem 4 "d" ++ [10%N] ++
  numberedItem 5 "e" ++ [10%N] ++ numberedItem 6 "f" ++ [10%N] ++
  numberedItem 7 "g" ++ [10%N] ++ numberedItem 8 "h" ++ [10%N] ++
  numberedItem 9 "i" ++ [10%N] ++ numberedItem 10 "j".

(** The same list after a line of introduction. *)
Definition tenItemsIntroduced : jsstring :=
  js "Here are your prompts:" ++ [10%N] ++ tenItems.

Definition boldHeader : jsstring := js "**Prompt 1:** hi".

Definition emphasized : jsstring := js "Prompt 1: a **bold** and *plain* look".

Definition empty : Part000.state :=
  {| Part000.prompts := []; Part000.seenPrompts := [] |}.

(** ** The request handlers *)

(** What [parseInt] can return: [NaN], an integer, or an infinity (for a
    numeral too large for a number).  Zero stands for both [0] and [-0]. *)
Inductive number :=
| NaN
| Integer (z : Z)
| Infinity (negative : bool).

(** [x || y] on numbers: [NaN] and zero are falsy. *)
Definition orNumber (x y : number) : number :=
  match x with
  | NaN | Integer 0 => y
  | _ => x
  end.

(** [Math.max(x, y)] and [Math.min(x, y)] *)
Definition mathMax (x y : number) : number :=
  match x, y with
  | NaN, _ | _, NaN => NaN
  | Infinity false, _ | _, Infinity false => Infinity false
  | Infinity true, v | v, Infinity true => v
  | Integer a, Integer b => Integer (Z.max a b)
  end.

Definition mathMin (x y : number) : number :=
  match x, y with
  | NaN, _ | _, NaN => NaN
  | Infinity true, _ | _, Infinity true => Infinity true
  | Infinity false, v | v, Infinity false => v
  | Integer a, Integer b => Integer (Z.min a b)
  end.

(** [Math.min(Math.max(parseInt(imageCount) || 1, 1), 5)], from the value
    of [parseInt(imageCount)]: the count of both handlers in both files. *)
Definition numImages (parsed : number) : number :=
  mathMin (mathMax (orNumber parsed (Integer 1)) (Integer 1)) (Integer 5).

(** [finalPrompts[i] || finalPrompts[0]] for an array of strings; [None] is
    [undefined]. *)
Definition selectPrompt (finalPrompts : list jsstring) (i : nat) : option jsstring :=
  match nth_error finalPrompts i with
  | Some ((_ :: _) as prompt) => Some prompt
  | _ => nth_error finalPrompts 0
  end.

(** The loop [for (let i = 0; i < numImages; i++)] of the try-on handler,
    with [remaining] turns left from index [i]: the prompts handed to the
    image service, one per turn, as long as the service answers.  On an
    [undefined] prompt [prompt.substring] throws. *)
Fixpoint tryOnLoop (finalPrompts : list jsstring) (i remaining : nat)
    : completion (list jsstring) :=
  match remaining with
  | O => Normal []
  | S remaining' =>
      match selectPrompt finalPrompts i with
      | Some prompt =>
          match tryOnLoop finalPrompts (S i) remaining' with
          | Normal sent => Normal (prompt :: sent)
          | Throw => Throw
          | OutOfFuel => OutOfFuel
          end
      | None => Throw
      end
  end.

(** The prompts that the try-on handler sends for an array [prompts] of
    strings and a count: [finalPrompts = promptArray.slice(0, numImages)],
    then the loop. *)
Definition tryOnPrompts (prompts : list jsstring) (count : Z)
    : completion (list jsstring) :=
  tryOnLoop (slice0 prompts count) 0 (Z.to_nat count).

(** ** The cascade as one list of candidates *)

(** A candidate passes [prompt.length > 100]. *)
Definition substantial (prompt : jsstring) : bool := (100 <? length prompt)%nat.

(** The cleaned items of the structured stage, of both files. *)
Definition structuredCandidates (promptText : jsstring) : list jsstring :=
  match jsMatch structuredPattern promptText with
  | Some ((_ :: _) as structuredPrompts) =>
      map (fun item => removeMarkdown (trim (removeHeader (trim item))))
        structuredPrompts
  | _ => []
  end.

(** The pieces after the first of a split, when the split found anything. *)
Definition numberedPieces (promptText : jsstring) : list jsstring :=
  let numberedSplit := jsSplit numberedPattern promptText in
  if (1 <? length numberedSplit)%nat then skipn 1 numberedSplit else [].

(** The candidates of [src/server.js], in the order of its stages. *)
Definition serverJsCandidates (promptText : jsstring) : list jsstring :=
  structuredCandidates promptText ++
  map trim (numberedPieces promptText) ++
  [stripMarkup promptText] ++
  map (fun item => removeMarkdown (trim item)) (jsSplit paragraphPattern promptText).

(** The candidates of [src/unnamed/part_000], in the order of its stages. *)
Definition part000Candidates (promptText : jsstring) : list jsstring :=
  structuredCandidates promptText ++
  map (fun item => removeMarkdown (trim item))
    (skipn 1 (jsSplit sectionPattern promptText)) ++
  map (fun item => removeMarkdown (trim item)) (numberedPieces promptText) ++
  [stripMarkup promptText] ++
  map (fun item => removeMarkdown (trim item)) (jsSplit paragraphPattern promptText).

(** All candidates through the filter of [src/unnamed/part_000], without a
    bound on the count. *)
Definition collect (toLowerCase : jsstring -> jsstring) (candidates : list jsstring)
    (st : Part000.state) : Part000.state :=
  fold_left (Part000.tryPush toLowerCase) candidates st.

(** The variation with index [i], for [i >= 0]. *)
Definition serverJsVariation (i : nat) : jsstring :=
  nth (i mod 4) (ServerJs.creativeVariations (Z.of_nat i)) [].

Definition part000Variation (i : nat) : jsstring :=
  nth (i mod 10) (Part000.creativeVariations (Z.of_nat i)) [].

(** [a] is the start of [b]. *)
Definition prefix (A : Type) (a b : list A) : Prop := exists rest, b = a ++ rest.

(** The code units other than [*]. *)
Definition withoutStars (s : jsstring) : jsstring :=
  filter (fun c => negb (isStar c)) s.

(** The padding of [src/unnamed/part_000] from index [i]: up to [count]
    variations, as long as each is new. *)
Fixpoint padVariations (toLowerCase : jsstring -> jsstring) (seen : list jsstring)
    (i count : nat) : list jsstring :=
  match count with
  | O => []
  | S count' =>
      let variation := part000Variation i in
      let normalized := Part000.normalize toLowerCase variation in
      if Part000.has seen normalized then []
      else variation :: padVariations toLowerCase (normalized :: seen) (S i) count'
  end.

(** ** Further texts *)

(** The fourth template with index 3, as the upstream model could answer it. *)
Definition artisticEnhancement3 : jsstring :=
  js "ARTISTIC ENHANCEMENT 3: Replace the person's current clothing with the uploaded clothing items, maintaining their face and body unchanged. Create an artistic visual narrative with dramatic lighting, creative shadow play, and sophisticated composition. Apply color theory principles and artistic depth of field effects for a creatively enhanced, visually stunning image.".

(** [k. ] and [count] times the letter [c]. *)
Definition shortItem (k : Z) (c : string) (count : nat) : jsstring :=
  numberToString k ++ js ". " ++ concat (repeat (js c) count).

(** A numbered list after a line of introduction: its first item is 100
    code units long, its second 101. *)
Definition thresholdItems : jsstring :=
  js "Here are your prompts:" ++ [10%N] ++
  shortItem 1 "a" 97 ++ [10%N] ++ shortItem 2 "b" 98.

(** ** Acceptance by a stage *)

(** A stage of [src/server.js] rejects [x]: [x] is among the prompts after
    the stage only if it was among them before. *)
Definition rejects (stage : list jsstring -> list jsstring) (x : jsstring) : Prop :=
  forall prompts, In x (stage prompts) -> In x prompts.

(** A stage of [src/server.js] with the given candidates accepts [y]: where
    [y] is a candidate, and the candidates before it cannot fill the count,
    [y] is among the prompts after the stage. *)
Definition accepts (expectedCount : Z) (stage : list jsstring -> list jsstring)
    (candidates : list jsstring) (y : jsstring) : Prop :=
  forall prompts pre post,
    candidates = pre ++ y :: post ->
    (Z.of_nat (length prompts + length pre) < expectedCount)%Z ->
    In y (stage prompts).

(** The same for a stage of [src/unnamed/part_000]. *)
Definition rejectsSeen (stage : Part000.state -> Part000.state) (x : jsstring)
    : Prop :=
  forall st, In x (Part000.prompts (stage st)) -> In x (Part000.prompts st).

(** Acceptance in [src/unnamed/part_000] is of a candidate that is new: its
    normalized form is not in [seenPrompts] and is not that of an earlier
    candidate of the stage. *)
Definition acceptsNew (toLowerCase : jsstring -> jsstring) (expectedCount : Z)
    (stage : Part000.state -> Part000.state) (candidates : list jsstring)
    (y : jsstring) : Prop :=
  forall st pre post,
    candidates = pre ++ y :: post ->
    (Z.of_nat (length (Part000.prompts st) + length pre) < expectedCount)%Z ->
    Part000.has (Part000.seenPrompts st) (Part000.normalize toLowerCase y) = false ->
    (forall d, In d pre ->
       Part000.normalize toLowerCase d <> Part000.normalize toLowerCase y) ->
    In y (Part000.prompts (stage st)).

(** * Properties *)

(** ** Strings and arrays *)

Lemma jsstring_eqb_eq (a b : jsstring) : jsstring_eqb a b = true <-> a = b.
Proof.
  revert b; induction a as [|x a IH]; intros [|y b]; simpl; split;
    try congruence; try reflexivity.
  - intros H. apply andb_true_iff in H as [Hx Hab].
    apply N.eqb_eq in Hx. apply IH in Hab. congruence.
  - intros H. injection H as -> ->. apply andb_true_iff. split.
    + apply N.eqb_refl.
    + now apply IH.
Qed.

Lemma slice0_all (A : Type) (a : list A) (to : Z) :
  (Z.of_nat (length a) <= to)%Z -> slice0 a to = a.
Proof.
  intros H. unfold slice0.
  destruct (to <? 0)%Z eqn:E; [apply Z.ltb_lt in E; lia|].
  rewrite Z.min_r by lia. rewrite Nat2Z.id. apply firstn_all.
Qed.

Lemma arrayGet_defined (A : Type) (a : list A) (i : Z) :
  (0 <= i < Z.of_nat (length a))%Z -> exists x, arrayGet a i = Some x.
Proof.
  intros H. unfold arrayGet.
  destruct (i <? 0)%Z eqn:E; [apply Z.ltb_lt in E; lia|].
  destruct (nth_error a (Z.to_nat i)) eqn:N; [eauto|].
  apply nth_error_None in N. lia.
Qed.

(** ** The [while] loop *)

Section WhileLoop.
Variable St : Type.
Variable step : St -> iteration St.
(** An invariant of the body and a variant that every full turn decreases. *)
Variable Inv : St -> Prop.
Variable variant : St -> nat.
Hypothesis step_continue :
  forall st st', Inv st -> step st = Continue st' ->
    Inv st' /\ variant st' < variant st.

Lemma whileLoop_result (fuel : nat) (st r : St) (early : bool) :
  Inv st -> whileLoop step fuel st = Normal (r, early) ->
  exists last, Inv last /\
    if early then step last = Break r else step last = Exit /\ r = last.
Proof.
  revert st; induction fuel as [|fuel IH]; intros st Hinv; simpl; [discriminate|].
  destruct (step st) as [st'|st'| |] eqn:E; intros H.
  - destruct (step_continue Hinv E) as [Hinv' _]. eauto.
  - injection H as <- <-. exists st. auto.
  - injection H as <- <-. exists st. auto.
  - discriminate.
Qed.

Hypothesis step_no_raise : forall st, Inv st -> step st <> Raise.

Lemma whileLoop_returns (fuel : nat) (st : St) :
  Inv st -> variant st < fuel -> exists r, whileLoop step fuel st = Normal r.
Proof.
  revert st; induction fuel as [|fuel IH]; intros st Hinv Hfuel; [lia|]. simpl.
  destruct (step st) as [st'|st'| |] eqn:E; eauto.
  - destruct (step_continue Hinv E) as [Hinv' Hdec]. apply IH; [assumption|lia].
  - now apply step_no_raise in E.
Qed.

Lemma whileLoop_fuel (fuel fuel' : nat) (st : St) (r : St * bool) :
  whileLoop step fuel st = Normal r -> fuel <= fuel' ->
  whileLoop step fuel' st = Normal r.
Proof.
  revert fuel' st; induction fuel as [|fuel IH]; intros fuel' st; simpl; [discriminate|].
  intros H Hle. destruct fuel' as [|fuel']; [lia|]. simpl.
  destruct (step st); try assumption. apply IH; [assumption|lia].
Qed.

End WhileLoop.

Lemma whileLoop_ext (St : Type) (f g : St -> iteration St) :
  (forall st, f st = g st) ->
  forall fuel st, whileLoop f fuel st = whileLoop g fuel st.
Proof.
  intros H fuel; induction fuel as [|fuel IH]; intros st; simpl; [reflexivity|].
  rewrite H. destruct (g st); auto.
Qed.

(** ** The synthesizer *)

Lemma rem_index (i m : Z) : (0 <= i)%Z -> (0 < m)%Z -> (0 <= Z.rem i m < m)%Z.
Proof. intros Hi Hm. apply Z.rem_bound_pos; lia. Qed.

Lemma ServerJs_variation_defined (b : jsstring) (i : Z) :
  (0 <= i)%Z -> exists v, ServerJs.createPromptVariation b i = Some v.
Proof.
  intros Hi. unfold ServerJs.createPromptVariation.
  apply arrayGet_defined. apply rem_index; [assumption|]. simpl. lia.
Qed.

Lemma Part000_variation_defined (b : jsstring) (i : Z) :
  (0 <= i)%Z -> exists v, Part000.createPromptVariation b i = Some v.
Proof.
  intros Hi. unfold Part000.createPromptVariation.
  apply arrayGet_defined. apply rem_index; [assumption|]. simpl. lia.
Qed.

(** ** Induction over the extraction stages *)

(** Every stage adds prompts through [tryPush] only, and only while fewer
    than [expectedCount] are collected: what holds at the start and is kept
    by such a [tryPush] holds of the extracted prompts. *)
Section ExtractInd.
Variable toLowerCase : jsstring -> jsstring.
Variable promptText : jsstring.
Variable expectedCount : Z.

Section ServerJsInd.
Variable P : list jsstring -> Prop.
Hypothesis P_tryPush :
  forall prompts x, P prompts -> ServerJs.below expectedCount prompts = true ->
    P (ServerJs.tryPush prompts x).

Lemma ServerJs_forLoop_ind (clean : jsstring -> jsstring) (items prompts : list jsstring) :
  P prompts -> P (ServerJs.forLoop expectedCount clean items prompts).
Proof.
  revert prompts; induction items as [|item rest IH]; intros prompts H; simpl;
    [assumption|].
  destruct (ServerJs.below expectedCount prompts) eqn:E; auto.
Qed.

Lemma ServerJs_extract_ind : P [] -> P (ServerJs.extract promptText expectedCount).
Proof.
  intros H0.
  unfold ServerJs.extract, ServerJs.paragraphStage, ServerJs.mainContentStage,
    ServerJs.numberedStage, ServerJs.structuredStage.
  repeat match goal with
         | |- P (if ?b then _ else _) => destruct b eqn:?
         | |- P (match ?m with Some _ => _ | None => _ end) => destruct m as [[|? ?]|]
         | |- P (ServerJs.forLoop _ _ _ _) => apply ServerJs_forLoop_ind
         | |- P (ServerJs.tryPush _ _) => apply P_tryPush; [|assumption]
         | |- _ => assumption
         end.
Qed.

End ServerJsInd.

Section Part000Ind.
Variable P : Part000.state -> Prop.
Hypothesis P_tryPush :
  forall st x, P st -> Part000.below expectedCount st = true ->
    P (Part000.tryPush toLowerCase st x).

Lemma Part000_forLoop_ind (clean : jsstring -> jsstring) (items : list jsstring)
    (st : Part000.state) :
  P st -> P (Part000.forLoop toLowerCase expectedCount clean items st).
Proof.
  revert st; induction items as [|item rest IH]; intros st H; simpl; [assumption|].
  destruct (Part000.below expectedCount st) eqn:E; auto.
Qed.

Lemma Part000_extract_ind :
  P empty -> P (Part000.extract toLowerCase promptText expectedCount).
Proof.
  intros H0.
  unfold Part000.extract, Part000.paragraphStage, Part000.mainContentStage,
    Part000.numberedStage, Part000.sectionStage, Part000.structuredStage.
  repeat match goal with
         | |- P (if ?b then _ else _) => destruct b eqn:?
         | |- P (match ?m with Some _ => _ | None => _ end) => destruct m as [[|? ?]|]
         | |- P (Part000.forLoop _ _ _ _ _) => apply Part000_forLoop_ind
         | |- P (Part000.tryPush _ _ _) => apply P_tryPush; [|assumption]
         | |- _ => assumption
         end.
Qed.

End Part000Ind.
End ExtractInd.

(** ** Counting in [src/server.js] *)

Section ServerJsCount.
Variable promptText : jsstring.
Variable expectedCount : Z.
Hypothesis count_nonneg : (0 <= expectedCount)%Z.


Lemma ServerJs_below_spec (prompts : list jsstring) :
  ServerJs.below expectedCount prompts = true <->
  (Z.of_nat (length prompts) < expectedCount)%Z.
Proof. unfold ServerJs.below. apply Z.ltb_lt. Qed.

Lemma ServerJs_tryPush_bounded (prompts : list jsstring) (x : jsstring) :
  ServerJs.below expectedCount prompts = true ->
  bounded expectedCount (ServerJs.tryPush prompts x).
Proof.
  intros H. apply ServerJs_below_spec in H. unfold bounded, ServerJs.tryPush.
  destruct (100 <? length x)%nat; [rewrite length_app; simpl|]; lia.
Qed.

Lemma ServerJs_extract_bounded :
  bounded expectedCount (ServerJs.extract promptText expectedCount).
Proof.
  apply ServerJs_extract_ind.
  - intros prompts x _. apply ServerJs_tryPush_bounded.
  - unfold bounded. simpl. lia.
Qed.

(** A turn of the padding loop appends exactly one prompt, or the guard
    was false; it never throws. *)
Lemma ServerJs_padStep_cases (prompts : list jsstring) :
  (exists v, ServerJs.padStep promptText expectedCount prompts = Continue (prompts ++ [v])
             /\ (Z.of_nat (length prompts) < expectedCount)%Z) \/
  (ServerJs.padStep promptText expectedCount prompts = Exit
   /\ (expectedCount <= Z.of_nat (length prompts))%Z).
Proof.
  unfold ServerJs.padStep, ServerJs.below.
  destruct (Z.of_nat (length prompts) <? expectedCount)%Z eqn:E.
  - left. apply Z.ltb_lt in E.
    destruct (@ServerJs_variation_defined
                (orElse (nth_error prompts 0) promptText)
                (Z.of_nat (length prompts) + 1)) as [v Hv]; [lia|].
    rewrite Hv. eauto.
  - right. apply Z.ltb_ge in E. auto.
Qed.

Lemma ServerJs_padStep_continue (prompts prompts' : list jsstring) :
  bounded expectedCount prompts ->
  ServerJs.padStep promptText expectedCount prompts = Continue prompts' ->
  bounded expectedCount prompts' /\
  deficit expectedCount (length prompts') < deficit expectedCount (length prompts).
Proof.
  intros _ H. destruct (ServerJs_padStep_cases prompts) as [(v & Hv & Hlt)|[Hx _]];
    [|congruence].
  rewrite Hv in H. injection H as <-. unfold bounded, deficit.
  rewrite length_app. simpl. lia.
Qed.

Lemma ServerJs_padStep_no_raise (prompts : list jsstring) :
  bounded expectedCount prompts -> ServerJs.padStep promptText expectedCount prompts <> Raise.
Proof.
  intros _. destruct (ServerJs_padStep_cases prompts) as [(v & Hv & _)|[Hx _]];
    congruence.
Qed.

Lemma ServerJs_padStep_no_break (prompts r : list jsstring) :
  ServerJs.padStep promptText expectedCount prompts <> Break r.
Proof.
  destruct (ServerJs_padStep_cases prompts) as [(v & Hv & _)|[Hx _]]; congruence.
Qed.

(** With the fuel of the model or more, the loop ends on a false guard with
    exactly [expectedCount] prompts. *)
Lemma ServerJs_parse_exact (fuel : nat) :
  Z.to_nat expectedCount < fuel ->
  exists l, ServerJs.parseMultiplePromptsFuel promptText expectedCount fuel = Normal l
            /\ Z.of_nat (length l) = expectedCount.
Proof.
  intros Hfuel. unfold ServerJs.parseMultiplePromptsFuel.
  pose proof ServerJs_extract_bounded as Hb.
  destruct (@whileLoop_returns _ (ServerJs.padStep promptText expectedCount)
              (bounded expectedCount) (fun p => deficit expectedCount (length p))
              ServerJs_padStep_continue ServerJs_padStep_no_raise fuel
              (ServerJs.extract promptText expectedCount) Hb) as [[r early] Hr].
  { unfold deficit. lia. }
  rewrite Hr.
  destruct (@whileLoop_result _ (ServerJs.padStep promptText expectedCount)
              (bounded expectedCount) (fun p => deficit expectedCount (length p))
              ServerJs_padStep_continue fuel _ r early Hb Hr) as (last & Hlast & Hend).
  destruct early.
  - now apply ServerJs_padStep_no_break in Hend.
  - destruct Hend as [Hexit ->].
    destruct (ServerJs_padStep_cases last) as [(v & Hv & _)|[_ Hge]]; [congruence|].
    unfold bounded in Hlast. exists last. split; [|lia].
    f_equal. apply slice0_all. lia.
Qed.

End ServerJsCount.

(** ** Counting and duplicates in [src/unnamed/part_000] *)

Lemma has_In (seen : list jsstring) (x : jsstring) :
  Part000.has seen x = true <-> In x seen.
Proof.
  unfold Part000.has. rewrite existsb_exists. split.
  - intros (y & Hy & E). apply jsstring_eqb_eq in E. now subst.
  - intros H. exists x. split; [assumption|]. now apply jsstring_eqb_eq.
Qed.

Section Part000Count.
Variable toLowerCase : jsstring -> jsstring.
Variable promptText : jsstring.
Variable expectedCount : Z.
Hypothesis count_nonneg : (0 <= expectedCount)%Z.


Lemma Part000_below_spec (st : Part000.state) :
  Part000.below expectedCount st = true <->
  (Z.of_nat (length (Part000.prompts st)) < expectedCount)%Z.
Proof. unfold Part000.below. apply Z.ltb_lt. Qed.

Lemma Inv_init : Invariant toLowerCase expectedCount empty.
Proof. split; unfold bounded; simpl; [reflexivity|constructor|lia]. Qed.

Lemma Inv_push (st : Part000.state) (x : jsstring) :
  Invariant toLowerCase expectedCount st -> Part000.below expectedCount st = true ->
  Part000.has (Part000.seenPrompts st) (Part000.normalize toLowerCase x) = false ->
  Invariant toLowerCase expectedCount (Part000.push st x (Part000.normalize toLowerCase x)).
Proof.
  intros [Hs Hn Hc] Hb Hnew. apply Part000_below_spec in Hb.
  split; simpl.
  - rewrite map_app, rev_app_distr, Hs. reflexivity.
  - rewrite map_app. simpl.
    rewrite <- (rev_involutive (_ ++ _)). apply NoDup_rev.
    rewrite rev_app_distr. simpl. constructor.
    + intros Hin. rewrite <- Hs in Hin. apply has_In in Hin. congruence.
    + now apply NoDup_rev.
  - unfold bounded in *. rewrite length_app. simpl. lia.
Qed.

Lemma Inv_tryPush (st : Part000.state) (x : jsstring) :
  Invariant toLowerCase expectedCount st -> Part000.below expectedCount st = true ->
  Invariant toLowerCase expectedCount (Part000.tryPush toLowerCase st x).
Proof.
  intros Hinv Hb. unfold Part000.tryPush.
  destruct (100 <? length x)%nat; simpl; [|assumption].
  destruct (Part000.has _ _) eqn:E; simpl; [assumption|].
  now apply Inv_push.
Qed.

Lemma Inv_extract :
  Invariant toLowerCase expectedCount
    (Part000.extract toLowerCase promptText expectedCount).
Proof. apply Part000_extract_ind; [apply Inv_tryPush|apply Inv_init]. Qed.

(** The three ways a turn of the padding loop can go: the variation is new
    and is appended; it repeats a collected prompt and the loop is left; or
    the guard was false.  It never throws. *)
Lemma Part000_padStep_cases (st : Part000.state) :
  (exists v,
      Part000.createPromptVariation
        (orElse (nth_error (Part000.prompts st) 0) promptText)
        (Z.of_nat (length (Part000.prompts st)) + 1) = Some v /\
      (Z.of_nat (length (Part000.prompts st)) < expectedCount)%Z /\
      ((Part000.has (Part000.seenPrompts st) (Part000.normalize toLowerCase v) = false /\
        Part000.padStep toLowerCase promptText expectedCount st
        = Continue (Part000.push st v (Part000.normalize toLowerCase v))) \/
       (Part000.has (Part000.seenPrompts st) (Part000.normalize toLowerCase v) = true /\
        Part000.padStep toLowerCase promptText expectedCount st = Break st))) \/
  (Part000.padStep toLowerCase promptText expectedCount st = Exit
   /\ (expectedCount <= Z.of_nat (length (Part000.prompts st)))%Z).
Proof.
  unfold Part000.padStep, Part000.below.
  destruct (Z.of_nat (length (Part000.prompts st)) <? expectedCount)%Z eqn:E.
  - left. apply Z.ltb_lt in E.
    destruct (@Part000_variation_defined
                (orElse (nth_error (Part000.prompts st) 0) promptText)
                (Z.of_nat (length (Part000.prompts st)) + 1)) as [v Hv]; [lia|].
    rewrite Hv. exists v. split; [reflexivity|]. split; [assumption|].
    destruct (Part000.has _ _); simpl; auto.
  - right. apply Z.ltb_ge in E. auto.
Qed.

Lemma Part000_padStep_continue (st st' : Part000.state) :
  Invariant toLowerCase expectedCount st ->
  Part000.padStep toLowerCase promptText expectedCount st = Continue st' ->
  Invariant toLowerCase expectedCount st' /\
  deficit expectedCount (length (Part000.prompts st'))
  < deficit expectedCount (length (Part000.prompts st)).
Proof.
  intros Hinv H.
  destruct (Part000_padStep_cases st)
    as [(v & Hv & Hlt & [[Hnew Hc]|[_ Hb]])|[Hx _]]; try congruence.
  rewrite Hc in H. injection H as <-. split.
  - apply Inv_push; [assumption| |assumption]. now apply Part000_below_spec.
  - unfold deficit. simpl. rewrite length_app. simpl. lia.
Qed.

Lemma Part000_padStep_no_raise (st : Part000.state) :
  Invariant toLowerCase expectedCount st ->
  Part000.padStep toLowerCase promptText expectedCount st <> Raise.
Proof.
  intros _. destruct (Part000_padStep_cases st)
    as [(v & Hv & Hlt & [[Hnew Hc]|[_ Hb]])|[Hx _]]; congruence.
Qed.

(** With the fuel of the model or more, the padding loop ends; the function
    returns the prompts of the final state, which satisfies the invariant;
    after a [break] there are fewer than [expectedCount] prompts and the
    next variation repeats a collected one, otherwise there are exactly
    [expectedCount]. *)
Lemma Part000_parse_spec (fuel : nat) :
  Z.to_nat expectedCount < fuel ->
  exists st early,
    Part000.padding toLowerCase promptText expectedCount fuel = Normal (st, early) /\
    Part000.parseMultiplePromptsFuel toLowerCase promptText expectedCount fuel
    = Normal (Part000.prompts st) /\
    Invariant toLowerCase expectedCount st /\
    if early then
      (Z.of_nat (length (Part000.prompts st)) < expectedCount)%Z /\
      exists v,
        Part000.createPromptVariation
          (orElse (nth_error (Part000.prompts st) 0) promptText)
          (Z.of_nat (length (Part000.prompts st)) + 1) = Some v /\
        In (Part000.normalize toLowerCase v)
           (map (Part000.normalize toLowerCase) (Part000.prompts st))
    else Z.of_nat (length (Part000.prompts st)) = expectedCount.
Proof.
  intros Hfuel. unfold Part000.parseMultiplePromptsFuel, Part000.padding.
  pose proof Inv_extract as Hb.
  destruct (@whileLoop_returns _ (Part000.padStep toLowerCase promptText expectedCount)
              (Invariant toLowerCase expectedCount)
              (fun st => deficit expectedCount (length (Part000.prompts st)))
              Part000_padStep_continue Part000_padStep_no_raise fuel
              (Part000.extract toLowerCase promptText expectedCount) Hb) as [[r early] Hr].
  { unfold deficit. lia. }
  rewrite Hr.
  destruct (@whileLoop_result _ (Part000.padStep toLowerCase promptText expectedCount)
              (Invariant toLowerCase expectedCount)
              (fun st => deficit expectedCount (length (Part000.prompts st)))
              Part000_padStep_continue fuel _ r early Hb Hr) as (last & Hlast & Hend).
  exists r, early. split; [reflexivity|].
  destruct early; [|destruct Hend as [Hend ->]];
    destruct (Part000_padStep_cases last)
      as [(v & Hv & Hlt & [[Hnew Hc]|[Hdup Hbr]])|[Hx Hge]]; try congruence.
  - rewrite Hbr in Hend. injection Hend as <-.
    split; [f_equal; apply slice0_all; lia|].
    split; [assumption|]. split; [assumption|].
    exists v. split; [assumption|].
    apply has_In in Hdup. rewrite (inv_seen Hlast) in Hdup.
    now apply in_rev in Hdup.
  - pose proof (inv_count Hlast) as Hcount. unfold bounded in Hcount.
    split; [f_equal; apply slice0_all; lia|].
    split; [assumption|]. lia.
Qed.

End Part000Count.

(** ** The emphasis patterns *)

(** The lazy [(.*?)] before a closing [*] stops at [closing]. *)
Lemma star_lazy_star (g : nat -> option jsstring) (s : jsstring) (p : nat) :
  star false (test false CDot)
    (fun pos' s'' =>
       match s'' with
       | x :: _ => if test false (CChar 42%N) x then Some (S pos', g pos') else None
       | [] => None
       end) p s
  = match closing s with
    | Some j => Some (p + j + 1, g (p + j))
    | None => None
    end.
Proof.
  revert p; induction s as [|x s IH]; intros p; simpl; [reflexivity|].
  unfold isStar. destruct (char16_eqb x 42%N) eqn:E.
  - now rewrite !Nat.add_0_r, Nat.add_1_r.
  - destruct (isLineTerminator x); simpl; [reflexivity|].
    rewrite IH. destruct (closing s) as [j|]; simpl; [|reflexivity].
    now rewrite !Nat.add_succ_r.
Qed.

Lemma italic_match (pos : nat) (s : jsstring) :
  matchHere italicPattern pos s
  = match s with
    | x :: s' =>
        if isStar x then
          match closing s' with
          | Some j => Some (pos + j + 2, Some (firstn j s'))
          | None => None
          end
        else None
    | [] => None
    end.
Proof.
  destruct s as [|x s']; [reflexivity|].
  unfold matchHere; simpl. unfold isStar.
  destruct (char16_eqb x 42%N); [|reflexivity].
  rewrite (star_lazy_star (fun pos' => Some (firstn (pos' - S pos) s'))).
  destruct (closing s') as [j|]; [|reflexivity].
  f_equal. f_equal; [lia|]. f_equal. f_equal. lia.
Qed.

Lemma star_lazy_star2 (g : nat -> option jsstring) (s : jsstring) (p : nat) :
  star false (test false CDot)
    (fun pos' s'' =>
       match s'' with
       | x :: s3 =>
           if test false (CChar 42%N) x then
             match s3 with
             | y :: _ =>
                 if test false (CChar 42%N) y then Some (S (S pos'), g pos') else None
             | [] => None
             end
           else None
       | [] => None
       end) p s
  = match closing2 s with
    | Some j => Some (p + j + 2, g (p + j))
    | None => None
    end.
Proof.
  revert p; induction s as [|x s IH]; intros p; [reflexivity|].
  cbn [star closing2]. rewrite IH. unfold isStar. cbn [test].
  assert (Hstep :
    (if negb (isLineTerminator x)
     then match closing2 s with
          | Some j => Some (S p + j + 2, g (S p + j))
          | None => None
          end
     else None)
    = match (if isLineTerminator x then None else option_map S (closing2 s)) with
      | Some j => Some (p + j + 2, g (p + j))
      | None => None
      end).
  { destruct (isLineTerminator x); simpl; [reflexivity|].
    destruct (closing2 s) as [j|]; simpl; [|reflexivity].
    now rewrite !Nat.add_succ_r. }
  destruct (char16_eqb x 42%N) eqn:E; cbn [andb]; [|exact Hstep].
  destruct s as [|y t]; [exact Hstep|].
  destruct (char16_eqb y 42%N) eqn:E'; [|exact Hstep].
  replace (p + 0 + 2) with (S (S p)) by lia. now rewrite Nat.add_0_r.
Qed.

Lemma bold_match (pos : nat) (s : jsstring) :
  matchHere boldPattern pos s
  = match s with
    | x :: y :: t =>
        if isStar x && isStar y then
          match closing2 t with
          | Some j => Some (pos + j + 4, Some (firstn j t))
          | None => None
          end
        else None
    | _ => None
    end.
Proof.
  destruct s as [|x [|y t]]; [reflexivity| |]; unfold matchHere; simpl; unfold isStar.
  { destruct (char16_eqb x 42%N); reflexivity. }
  destruct (char16_eqb x 42%N); [|reflexivity].
  destruct (char16_eqb y 42%N); [|reflexivity]. simpl.
  rewrite (star_lazy_star2 (fun pos' => Some (firstn (pos' - S (S pos)) t))).
  destruct (closing2 t) as [j|]; [|reflexivity].
  f_equal. f_equal; [lia|]. f_equal. f_equal. lia.
Qed.

Lemma closing_bound (s : jsstring) (j : nat) : closing s = Some j -> j < length s.
Proof.
  revert j; induction s as [|x s IH]; intros j; simpl; [discriminate|].
  destruct (isStar x); [intros [= <-]; lia|].
  destruct (isLineTerminator x); [discriminate|].
  destruct (closing s) as [i|]; simpl; [|discriminate].
  intros [= <-]. specialize (IH i eq_refl). lia.
Qed.

Lemma closing2_bound (s : jsstring) (j : nat) : closing2 s = Some j -> j + 2 <= length s.
Proof.
  revert j; induction s as [|x s IH]; intros j; simpl; [discriminate|].
  destruct (isStar x && _) eqn:E.
  - intros [= <-]. destruct s; simpl; [|lia].
    now rewrite andb_false_r in E.
  - destruct (isLineTerminator x); [discriminate|].
    destruct (closing2 s) as [i|]; simpl; [|discriminate].
    intros [= <-]. specialize (IH i eq_refl). lia.
Qed.

Lemma closing_no_star (s : jsstring) (j : nat) :
  closing s = Some j -> Forall (fun x => isStar x = false) (firstn j s).
Proof.
  revert j; induction s as [|x s IH]; intros j; simpl; [discriminate|].
  destruct (isStar x) eqn:E; [intros [= <-]; constructor|].
  destruct (isLineTerminator x); [discriminate|].
  destruct (closing s) as [i|]; simpl; [|discriminate].
  intros [= <-]. simpl. constructor; auto.
Qed.

(** ** [replace] *)

(** Skipping the code units of a match is dropping them. *)
Lemma replaceAll_skip (p : pattern) (repl : option jsstring -> jsstring)
    (k : nat) (s : jsstring) (pos : nat) :
  k <= length s ->
  replaceAll p repl s pos k = replaceAll p repl (skipn k s) (pos + k) 0.
Proof.
  revert s pos; induction k as [|k IH]; intros s pos Hk.
  - now rewrite Nat.add_0_r.
  - destruct s as [|x s]; simpl in Hk; [lia|].
    simpl. rewrite IH by lia. f_equal. lia.
Qed.

(** A replacement that is no longer than what it replaces does not lengthen
    the text. *)
Lemma replaceAll_length (p : pattern) (repl : option jsstring -> jsstring) :
  (forall pos s e cap, matchHere p pos s = Some (e, cap) ->
     length (repl cap) <= e - pos /\ e - pos <= length s) ->
  forall s pos skip,
    length (replaceAll p repl s pos skip) + Nat.min skip (length s) <= length s.
Proof.
  intros Hm s; induction s as [|x s IH]; intros pos skip.
  - destruct skip; simpl; [|lia].
    destruct (matchHere p pos []) as [[e cap]|] eqn:E; simpl; [|lia].
    apply Hm in E. simpl in E. rewrite app_nil_r. lia.
  - destruct skip as [|k]; simpl.
    + destruct (matchHere p pos (x :: s)) as [[e cap]|] eqn:E; simpl.
      * apply Hm in E. simpl in E. rewrite length_app.
        destruct (Nat.eqb e pos) eqn:Ee.
        -- apply Nat.eqb_eq in Ee. specialize (IH (S pos) 0). simpl. lia.
        -- apply Nat.eqb_neq in Ee. specialize (IH (S pos) (e - pos - 1)). lia.
      * specialize (IH (S pos) 0). lia.
    + specialize (IH (S pos) k). lia.
Qed.

Lemma removeHeader_length (s : jsstring) : length (removeHeader s) <= length s.
Proof.
  unfold removeHeader, jsReplace.
  assert (H : forall s pos skip,
             length (replaceAll headerPattern (constant []) s pos skip) <= length s).
  { clear s. intros s; induction s as [|x s IH]; intros pos skip.
    - destruct skip; simpl; [|lia].
      destruct (matchHere headerPattern pos []) as [[e cap]|]; simpl; lia.
    - destruct skip as [|k]; simpl.
      + destruct (matchHere headerPattern pos (x :: s)) as [[e cap]|]; simpl.
        * destruct (Nat.eqb e pos); simpl.
          -- specialize (IH (S pos) 0). lia.
          -- specialize (IH (S pos) (e - pos - 1)). lia.
        * specialize (IH (S pos) 0). lia.
      + specialize (IH (S pos) k). lia. }
  apply H.
Qed.

Lemma italic_match_bound (pos : nat) (s : jsstring) (e : nat) (cap : option jsstring) :
  matchHere italicPattern pos s = Some (e, cap) ->
  length (dollar1 cap) <= e - pos /\ e - pos <= length s.
Proof.
  rewrite italic_match. destruct s as [|x s']; [discriminate|].
  destruct (isStar x); [|discriminate].
  destruct (closing s') as [j|] eqn:C; [|discriminate].
  intros [= <- <-]. apply closing_bound in C. simpl.
  pose proof (firstn_le_length j s'). lia.
Qed.

Lemma bold_match_bound (pos : nat) (s : jsstring) (e : nat) (cap : option jsstring) :
  matchHere boldPattern pos s = Some (e, cap) ->
  length (dollar1 cap) <= e - pos /\ e - pos <= length s.
Proof.
  rewrite bold_match. destruct s as [|x [|y s']]; try discriminate.
  destruct (isStar x && isStar y); [|discriminate].
  destruct (closing2 s') as [j|] eqn:C; [|discriminate].
  intros [= <- <-]. apply closing2_bound in C. simpl.
  pose proof (firstn_le_length j s'). lia.
Qed.

Lemma removeMarkdown_length (s : jsstring) : length (removeMarkdown s) <= length s.
Proof.
  unfold removeMarkdown, jsReplace.
  pose proof (@replaceAll_length italicPattern dollar1 italic_match_bound
                (replaceAll boldPattern dollar1 s 0 0) 0 0) as Hi.
  pose proof (@replaceAll_length boldPattern dollar1 bold_match_bound s 0 0) as Hb.
  lia.
Qed.

(** ** Unwrapping emphasis *)

Lemma italic_nil (pos : nat) : replaceAll italicPattern dollar1 [] pos 0 = [].
Proof. reflexivity. Qed.

Lemma italic_cons (x : char16) (s : jsstring) (pos : nat) :
  replaceAll italicPattern dollar1 (x :: s) pos 0
  = if isStar x then
      match closing s with
      | Some j =>
          firstn j s ++ replaceAll italicPattern dollar1 (skipn (S j) s) (S pos + S j) 0
      | None => x :: replaceAll italicPattern dollar1 s (S pos) 0
      end
    else x :: replaceAll italicPattern dollar1 s (S pos) 0.
Proof.
  cbn [replaceAll]. rewrite italic_match.
  destruct (isStar x); [|reflexivity].
  destruct (closing s) as [j|] eqn:C; [|reflexivity].
  apply closing_bound in C.
  replace (Nat.eqb (pos + j + 2) pos) with false
    by (symmetry; apply Nat.eqb_neq; lia).
  replace (pos + j + 2 - pos - 1) with (S j) by lia.
  rewrite replaceAll_skip by lia. reflexivity.
Qed.

Lemma noPair_app (u w : jsstring) :
  Forall (fun x => isStar x = false) u -> noPair w -> noPair (u ++ w).
Proof.
  induction 1 as [|x u Hx Hu IH]; intros Hw; simpl; [assumption|].
  split; [congruence|auto].
Qed.

Lemma closing_italic (s : jsstring) (pos : nat) :
  closing s = None -> closing (replaceAll italicPattern dollar1 s pos 0) = None.
Proof.
  revert pos; induction s as [|x s IH]; intros pos; [reflexivity|].
  rewrite italic_cons. simpl.
  destruct (isStar x) eqn:E; [discriminate|]. simpl. rewrite E.
  destruct (isLineTerminator x); [reflexivity|].
  destruct (closing s) eqn:C; simpl; [discriminate|].
  intros _. now rewrite IH.
Qed.

(** After the italic pass no line holds two [*]. *)
Lemma noPair_italic (n : nat) :
  forall s pos, length s <= n -> noPair (replaceAll italicPattern dollar1 s pos 0).
Proof.
  induction n as [|n IH]; intros s pos Hn.
  - destruct s; simpl in Hn; [exact I|lia].
  - destruct s as [|x s]; [exact I|]. simpl in Hn.
    rewrite italic_cons.
    destruct (isStar x) eqn:E.
    + destruct (closing s) as [j|] eqn:C.
      * apply noPair_app; [now apply closing_no_star|].
        apply IH. rewrite length_skipn. lia.
      * simpl. split; [intros _; now apply closing_italic|apply IH; lia].
    + simpl. split; [congruence|apply IH; lia].
Qed.

(** On such a text neither pass finds a match. *)
Lemma italic_noPair (s : jsstring) (pos : nat) :
  noPair s -> replaceAll italicPattern dollar1 s pos 0 = s.
Proof.
  revert pos; induction s as [|x s IH]; intros pos; [reflexivity|].
  intros [Hx Hs]. rewrite italic_cons.
  destruct (isStar x); [rewrite Hx by reflexivity|]; now rewrite IH.
Qed.

Lemma bold_noPair (s : jsstring) (pos : nat) :
  noPair s -> replaceAll boldPattern dollar1 s pos 0 = s.
Proof.
  revert pos; induction s as [|x s IH]; intros pos; [reflexivity|].
  intros [Hx Hs]. cbn [replaceAll]. rewrite bold_match.
  destruct s as [|y t].
  - reflexivity.
  - destruct (isStar x) eqn:Ex; simpl andb.
    + destruct (isStar y) eqn:Ey.
      * specialize (Hx eq_refl). simpl in Hx. now rewrite Ey in Hx.
      * now rewrite IH.
    + now rewrite IH.
Qed.

Lemma removeMarkdown_noPair (s : jsstring) : noPair (removeMarkdown s).
Proof.
  unfold removeMarkdown, jsReplace.
  now apply noPair_italic with (n := length (replaceAll boldPattern dollar1 s 0 0)).
Qed.

Lemma removeMarkdown_fixed (s : jsstring) : noPair s -> removeMarkdown s = s.
Proof.
  intros H. unfold removeMarkdown, jsReplace.
  rewrite (@bold_noPair s 0 H). now apply italic_noPair.
Qed.

Lemma removeMarkdown_idempotent (s : jsstring) :
  removeMarkdown (removeMarkdown s) = removeMarkdown s.
Proof. apply removeMarkdown_fixed, removeMarkdown_noPair. Qed.

(** ** [trim] *)

Lemma trimStart_suffix (s : jsstring) : exists w, s = w ++ trimStart s.
Proof.
  induction s as [|x s [w IH]]; [now exists []|]. simpl.
  destruct (isWhiteSpace x).
  - exists (x :: w). simpl. now f_equal.
  - now exists [].
Qed.

Lemma trimEnd_prefix (s : jsstring) : exists w, s = trimEnd s ++ w.
Proof.
  unfold trimEnd. destruct (trimStart_suffix (rev s)) as [w Hw].
  exists (rev w). rewrite <- rev_app_distr, <- Hw. now rewrite rev_involutive.
Qed.

Lemma trimStart_length (s : jsstring) : length (trimStart s) <= length s.
Proof.
  destruct (trimStart_suffix s) as [w Hw]. rewrite Hw at 2.
  rewrite length_app. lia.
Qed.

Lemma trim_length (s : jsstring) : length (trim s) <= length s.
Proof.
  unfold trim, trimEnd. rewrite length_rev.
  etransitivity; [apply trimStart_length|]. rewrite length_rev.
  apply trimStart_length.
Qed.

Lemma trimStart_headOk (s : jsstring) : headOk (trimStart s).
Proof.
  induction s as [|x s IH]; simpl; [exact I|].
  destruct (isWhiteSpace x) eqn:E; [assumption|exact E].
Qed.

Lemma trimStart_fixed (s : jsstring) : headOk s -> trimStart s = s.
Proof. destruct s as [|x s]; simpl; [reflexivity|]. now intros ->. Qed.

Lemma trim_idempotent (s : jsstring) : trim (trim s) = trim s.
Proof.
  unfold trim. set (t := trimStart s).
  assert (Ht : headOk t) by apply trimStart_headOk.
  assert (Hu : headOk (trimEnd t)).
  { destruct (trimEnd_prefix t) as [w Hw]. destruct (trimEnd t) as [|x u]; [exact I|].
    rewrite Hw in Ht. exact Ht. }
  rewrite (trimStart_fixed _ Hu). unfold trimEnd. rewrite rev_involutive.
  now rewrite (trimStart_fixed _ (trimStart_headOk (rev t))).
Qed.

Lemma closing_app_none (a w : jsstring) : closing (a ++ w) = None -> closing a = None.
Proof.
  induction a as [|x a IH]; simpl; [reflexivity|].
  destruct (isStar x); [discriminate|].
  destruct (isLineTerminator x); [reflexivity|].
  destruct (closing (a ++ w)); simpl; [discriminate|].
  intros _. now rewrite IH.
Qed.

Lemma noPair_prefix (a w : jsstring) : noPair (a ++ w) -> noPair a.
Proof.
  induction a as [|x a IH]; simpl; [trivial|].
  intros [Hx Ha]. split; [|auto].
  intros E. apply closing_app_none with (w := w). auto.
Qed.

Lemma noPair_suffix (w s : jsstring) : noPair (w ++ s) -> noPair s.
Proof. induction w as [|x w IH]; simpl; [trivial|]. intros [_ H]. auto. Qed.

Lemma noPair_trim (s : jsstring) : noPair s -> noPair (trim s).
Proof.
  intros H. unfold trim.
  destruct (trimStart_suffix s) as [w Hw]. rewrite Hw in H.
  apply noPair_suffix in H.
  destruct (trimEnd_prefix (trimStart s)) as [w' Hw']. rewrite Hw' in H.
  now apply noPair_prefix in H.
Qed.

(** ** Pieces of the text are no longer than the text *)

Lemma substring_length (s : jsstring) (from to : nat) :
  length (substring s from to) <= length s.
Proof.
  unfold substring. rewrite length_firstn, length_skipn. lia.
Qed.

Lemma splitLoop_length (pt : pattern) (whole s : jsstring) (q p skip : nat) :
  Forall (fun x => length x <= length whole) (splitLoop pt whole s q p skip).
Proof.
  revert q p skip; induction s as [|x s IH]; intros q p skip; simpl.
  - constructor; [apply substring_length|constructor].
  - destruct skip; [|apply IH].
    destruct (matchHere pt q (x :: s)) as [[e0 cap]|]; [|apply IH].
    destruct (Nat.eqb _ p); [apply IH|].
    constructor; [apply substring_length|apply IH].
Qed.

Lemma jsSplit_length (pt : pattern) (s : jsstring) :
  Forall (fun x => length x <= length s) (jsSplit pt s).
Proof.
  unfold jsSplit. destruct s as [|x s].
  - destruct (matchHere pt 0 []); repeat constructor.
  - apply splitLoop_length.
Qed.

Lemma jsMatch_length (p : pattern) (s : jsstring) (ms : list jsstring) :
  jsMatch p s = Some ms -> Forall (fun x => length x <= length s) ms.
Proof.
  unfold jsMatch. destruct (execAll p s 0 0) as [|m l]; [discriminate|].
  intros [= <-]. change (Forall (fun x => length x <= length s)
    (map (fun m => substring s (fst (fst m)) (snd (fst m))) (m :: l))).
  apply Forall_map, Forall_forall. intros y _. apply substring_length.
Qed.

Lemma Forall_tail (A : Type) (P : A -> Prop) (l : list A) :
  Forall P l -> Forall P (skipn 1 l).
Proof. destruct 1; simpl; [constructor|assumption]. Qed.

Lemma stripMarkup_length (s : jsstring) : length (stripMarkup s) <= length s.
Proof.
  unfold stripMarkup.
  pose proof (trim_length (removeMarkdown (removeHeader s))).
  pose proof (removeMarkdown_length (removeHeader s)).
  pose proof (removeHeader_length s). lia.
Qed.

(** ** A text of at most 100 code units yields no prompt *)

Section ShortText.
Variable toLowerCase : jsstring -> jsstring.
Variable promptText : jsstring.
Variable expectedCount : Z.
Hypothesis short : length promptText <= 100.

Lemma Short_pieces (clean : jsstring -> jsstring) (items : list jsstring) :
  (forall x, length (clean x) <= length x) ->
  Forall (fun x => length x <= length promptText) items -> Short clean items.
Proof.
  intros Hc H. unfold Short. eapply Forall_impl; [|exact H].
  simpl. intros x Hx. specialize (Hc x). lia.
Qed.

Lemma clean_structured (x : jsstring) :
  length (removeMarkdown (trim (removeHeader (trim x)))) <= length x.
Proof.
  pose proof (removeMarkdown_length (trim (removeHeader (trim x)))).
  pose proof (trim_length (removeHeader (trim x))).
  pose proof (removeHeader_length (trim x)).
  pose proof (trim_length x). lia.
Qed.

Lemma clean_piece (x : jsstring) : length (removeMarkdown (trim x)) <= length x.
Proof.
  pose proof (removeMarkdown_length (trim x)). pose proof (trim_length x). lia.
Qed.

Lemma ServerJs_tryPush_short (prompts : list jsstring) (x : jsstring) :
  length x <= 100 -> ServerJs.tryPush prompts x = prompts.
Proof.
  intros H. unfold ServerJs.tryPush.
  destruct (100 <? length x)%nat eqn:E; [apply Nat.ltb_lt in E; lia|reflexivity].
Qed.

Lemma Part000_tryPush_short (st : Part000.state) (x : jsstring) :
  length x <= 100 -> Part000.tryPush toLowerCase st x = st.
Proof.
  intros H. unfold Part000.tryPush.
  destruct (100 <? length x)%nat eqn:E; [apply Nat.ltb_lt in E; lia|reflexivity].
Qed.

Lemma ServerJs_forLoop_short (clean : jsstring -> jsstring) (items prompts : list jsstring) :
  Short clean items -> ServerJs.forLoop expectedCount clean items prompts = prompts.
Proof.
  induction 1 as [|x items Hx _ IH]; simpl; [reflexivity|].
  destruct (ServerJs.below _ _); [|reflexivity].
  now rewrite ServerJs_tryPush_short.
Qed.

Lemma Part000_forLoop_short (clean : jsstring -> jsstring) (items : list jsstring)
    (st : Part000.state) :
  Short clean items -> Part000.forLoop toLowerCase expectedCount clean items st = st.
Proof.
  induction 1 as [|x items Hx _ IH]; simpl; [reflexivity|].
  destruct (Part000.below _ _); [|reflexivity].
  now rewrite Part000_tryPush_short.
Qed.

Lemma ServerJs_extract_short : ServerJs.extract promptText expectedCount = [].
Proof.
  unfold ServerJs.extract.
  assert (H1 : ServerJs.structuredStage promptText expectedCount [] = []).
  { unfold ServerJs.structuredStage.
    destruct (jsMatch structuredPattern promptText) as [[|m ms]|] eqn:E; try reflexivity.
    apply ServerJs_forLoop_short, Short_pieces;
      [apply clean_structured|apply (jsMatch_length _ _ E)]. }
  rewrite H1.
  assert (H2 : ServerJs.numberedStage promptText expectedCount [] = []).
  { unfold ServerJs.numberedStage. destruct (ServerJs.below _ _); [|reflexivity].
    destruct (1 <? _)%nat; [|reflexivity].
    apply ServerJs_forLoop_short, Short_pieces;
      [apply trim_length|apply Forall_tail, jsSplit_length]. }
  rewrite H2.
  assert (H3 : ServerJs.mainContentStage promptText expectedCount [] = []).
  { unfold ServerJs.mainContentStage. destruct (ServerJs.below _ _); [|reflexivity].
    apply ServerJs_tryPush_short. pose proof (stripMarkup_length promptText). lia. }
  rewrite H3.
  unfold ServerJs.paragraphStage. destruct (ServerJs.below _ _); [|reflexivity].
  apply ServerJs_forLoop_short, Short_pieces; [apply clean_piece|apply jsSplit_length].
Qed.

Lemma Part000_extract_short :
  Part000.extract toLowerCase promptText expectedCount
  = {| Part000.prompts := []; Part000.seenPrompts := [] |}.
Proof.
  unfold Part000.extract.
  set (s0 := {| Part000.prompts := []; Part000.seenPrompts := [] |}).
  assert (H1 : Part000.structuredStage toLowerCase promptText expectedCount s0 = s0).
  { unfold Part000.structuredStage.
    destruct (jsMatch structuredPattern promptText) as [[|m ms]|] eqn:E; try reflexivity.
    apply Part000_forLoop_short, Short_pieces;
      [apply clean_structured|apply (jsMatch_length _ _ E)]. }
  rewrite H1.
  assert (H2 : Part000.sectionStage toLowerCase promptText expectedCount s0 = s0).
  { unfold Part000.sectionStage. destruct (Part000.below _ _); [|reflexivity].
    apply Part000_forLoop_short, Short_pieces;
      [apply clean_piece|apply Forall_tail, jsSplit_length]. }
  rewrite H2.
  assert (H3 : Part000.numberedStage toLowerCase promptText expectedCount s0 = s0).
  { unfold Part000.numberedStage. destruct (Part000.below _ _); [|reflexivity].
    destruct (1 <? _)%nat; [|reflexivity].
    apply Part000_forLoop_short, Short_pieces;
      [apply clean_piece|apply Forall_tail, jsSplit_length]. }
  rewrite H3.
  assert (H4 : Part000.mainContentStage toLowerCase promptText expectedCount s0 = s0).
  { unfold Part000.mainContentStage. destruct (Part000.below _ _); [|reflexivity].
    apply Part000_tryPush_short. pose proof (stripMarkup_length promptText). lia. }
  rewrite H4.
  unfold Part000.paragraphStage. destruct (Part000.below _ _); [|reflexivity].
  apply Part000_forLoop_short, Short_pieces; [apply clean_piece|apply jsSplit_length].
Qed.

End ShortText.

(** ** Variations are ASCII text *)

Lemma uint_ascii (d : Decimal.uint) :
  forallb Part000.isAscii (js (NilEmpty.string_of_uint d)) = true.
Proof. induction d; simpl; auto. Qed.

Lemma numberToString_ascii (z : Z) :
  forallb Part000.isAscii (numberToString z) = true.
Proof.
  unfold numberToString, NilZero.string_of_int, NilZero.string_of_uint.
  destruct (Z.to_int z) as [d|d]; destruct d; try reflexivity;
    apply (uint_ascii (Decimal.D0 _)).
Qed.

Lemma template_ascii (before after : string) (index : Z) :
  forallb Part000.isAscii (js before) = true ->
  forallb Part000.isAscii (js after) = true ->
  forallb Part000.isAscii (template before index after) = true.
Proof.
  intros Hb Ha. unfold template.
  now rewrite !forallb_app, Hb, Ha, numberToString_ascii.
Qed.

Lemma Part000_variation_ascii (b : jsstring) (i : Z) (v : jsstring) :
  Part000.createPromptVariation b i = Some v ->
  forallb Part000.isAscii v = true.
Proof.
  unfold Part000.createPromptVariation, arrayGet.
  destruct (_ <? 0)%Z; [discriminate|]. intros H. apply nth_error_In in H.
  unfold Part000.creativeVariations, commonVariations in H. simpl in H.
  repeat (destruct H as [<-|H]; [apply template_ascii; reflexivity|]).
  contradiction.
Qed.

(** ** Padding only lower-cases ASCII text *)

Section PaddingLower.
Variable toLowerCase : jsstring -> jsstring.
Hypothesis lowers : Part000.LowersAscii toLowerCase.
Variable promptText : jsstring.
Variable expectedCount : Z.

Lemma padStep_lower (st : Part000.state) :
  Part000.padStep toLowerCase promptText expectedCount st
  = Part000.padStep Part000.asciiLowerCase [] expectedCount st.
Proof.
  unfold Part000.padStep. destruct (Part000.below expectedCount st); [|reflexivity].
  change (Part000.createPromptVariation
            (orElse (nth_error (Part000.prompts st) 0) promptText)
            (Z.of_nat (length (Part000.prompts st)) + 1))
    with (Part000.createPromptVariation
            (orElse (nth_error (Part000.prompts st) 0) [])
            (Z.of_nat (length (Part000.prompts st)) + 1)).
  destruct (Part000.createPromptVariation _ _) as [v|] eqn:E; [|reflexivity].
  unfold Part000.normalize. now rewrite (lowers v (Part000_variation_ascii _ _ E)).
Qed.

Lemma padding_lower (fuel : nat) (st : Part000.state) :
  whileLoop (Part000.padStep toLowerCase promptText expectedCount) fuel st
  = whileLoop (Part000.padStep Part000.asciiLowerCase [] expectedCount) fuel st.
Proof. apply whileLoop_ext, padStep_lower. Qed.

(** On a text of at most 100 code units the function is the padding loop
    from nothing. *)
Lemma Part000_parse_short :
  length promptText <= 100 ->
  Part000.parseMultiplePrompts toLowerCase promptText expectedCount
  = Part000.parseMultiplePrompts Part000.asciiLowerCase [] expectedCount.
Proof.
  intros Hs.
  unfold Part000.parseMultiplePrompts, Part000.parseMultiplePromptsFuel, Part000.padding.
  rewrite (@Part000_extract_short toLowerCase promptText expectedCount Hs).
  rewrite (@Part000_extract_short Part000.asciiLowerCase [] expectedCount)
    by (simpl; lia).
  now rewrite padding_lower.
Qed.

Lemma ServerJs_parse_short :
  length promptText <= 100 ->
  ServerJs.parseMultiplePrompts promptText expectedCount
  = ServerJs.parseMultiplePrompts [] expectedCount.
Proof.
  intros Hs. unfold ServerJs.parseMultiplePrompts, ServerJs.parseMultiplePromptsFuel.
  rewrite (@ServerJs_extract_short promptText expectedCount Hs).
  rewrite (@ServerJs_extract_short [] expectedCount) by (simpl; lia).
  reflexivity.
Qed.

End PaddingLower.

(** ** The texts, evaluated *)

Example variation_two : Part000.createPromptVariation [] 2 = Some visualArtwork2.
Proof. vm_compute. reflexivity. Qed.

(** [src/unnamed/part_000] keeps the text as the one prompt and stops at the
    variation that repeats it; [src/server.js] keeps the text twice, as the
    whole text and as its only paragraph. *)
Example part000_on_repeated_variation :
  Part000.parseMultiplePrompts Part000.asciiLowerCase visualArtwork2 2
  = Normal [visualArtwork2].
Proof. vm_compute. reflexivity. Qed.

Example serverJs_on_repeated_variation :
  ServerJs.parseMultiplePrompts visualArtwork2 2
  = Normal [visualArtwork2; visualArtwork2].
Proof. vm_compute. reflexivity. Qed.

(** [split] puts no piece before an item at index 0, and cuts inside [10]. *)
Example numberedSplit_tenItems :
  jsSplit numberedPattern tenItems
  = [ numberedItem 1 "a" ++ [10%N]; numberedItem 2 "b" ++ [10%N];
      numberedItem 3 "c" ++ [10%N]; numberedItem 4 "d" ++ [10%N];
      numberedItem 5 "e" ++ [10%N]; numberedItem 6 "f" ++ [10%N];
      numberedItem 7 "g" ++ [10%N]; numberedItem 8 "h" ++ [10%N];
      numberedItem 9 "i" ++ [10%N]; js "1";
      js "0. " ++ concat (repeat (js "j") 110) ].
Proof. vm_compute. reflexivity. Qed.

(** After a line of introduction the first two items are returned. *)
Example numbered_list_after_introduction :
  ServerJs.parseMultiplePrompts tenItemsIntroduced 2
  = Normal [numberedItem 1 "a"; numberedItem 2 "b"] /\
  Part000.parseMultiplePrompts Part000.asciiLowerCase tenItemsIntroduced 2
  = Normal [numberedItem 1 "a"; numberedItem 2 "b"].
Proof. split; vm_compute; reflexivity. Qed.

(** * The functions in closed form *)

(** ** The stages as one loop over the candidates *)

Section Cascade.
Variable toLowerCase : jsstring -> jsstring.
Variable promptText : jsstring.
Variable expectedCount : Z.

Lemma ServerJs_forLoop_map (clean : jsstring -> jsstring) (items prompts : list jsstring) :
  ServerJs.forLoop expectedCount clean items prompts
  = ServerJs.forLoop expectedCount (fun x => x) (map clean items) prompts.
Proof.
  revert prompts; induction items as [|item rest IH]; intros prompts; simpl;
    [reflexivity|].
  destruct (ServerJs.below expectedCount prompts); [apply IH|reflexivity].
Qed.

Lemma ServerJs_forLoop_full (clean : jsstring -> jsstring) (items prompts : list jsstring) :
  ServerJs.below expectedCount prompts = false ->
  ServerJs.forLoop expectedCount clean items prompts = prompts.
Proof. intros H. destruct items; simpl; [reflexivity|now rewrite H]. Qed.

Lemma ServerJs_forLoop_guard (clean : jsstring -> jsstring) (items prompts : list jsstring) :
  (if ServerJs.below expectedCount prompts
   then ServerJs.forLoop expectedCount clean items prompts else prompts)
  = ServerJs.forLoop expectedCount clean items prompts.
Proof.
  destruct (ServerJs.below expectedCount prompts) eqn:E; [reflexivity|].
  symmetry. now apply ServerJs_forLoop_full.
Qed.

Lemma ServerJs_forLoop_app (clean : jsstring -> jsstring) (a b prompts : list jsstring) :
  ServerJs.forLoop expectedCount clean (a ++ b) prompts
  = ServerJs.forLoop expectedCount clean b
      (ServerJs.forLoop expectedCount clean a prompts).
Proof.
  revert prompts; induction a as [|x a IH]; intros prompts; simpl; [reflexivity|].
  destruct (ServerJs.below expectedCount prompts) eqn:E; [apply IH|].
  symmetry. now apply ServerJs_forLoop_full.
Qed.

Lemma ServerJs_structuredStage_forLoop (prompts : list jsstring) :
  ServerJs.structuredStage promptText expectedCount prompts
  = ServerJs.forLoop expectedCount (fun x => x)
      (structuredCandidates promptText) prompts.
Proof.
  unfold ServerJs.structuredStage, structuredCandidates.
  destruct (jsMatch structuredPattern promptText) as [[|m ms]|]; try reflexivity.
  apply ServerJs_forLoop_map.
Qed.

Lemma ServerJs_numberedStage_forLoop (prompts : list jsstring) :
  ServerJs.numberedStage promptText expectedCount prompts
  = ServerJs.forLoop expectedCount (fun x => x)
      (map trim (numberedPieces promptText)) prompts.
Proof.
  unfold ServerJs.numberedStage, numberedPieces.
  destruct (1 <? _)%nat.
  - now rewrite ServerJs_forLoop_guard, ServerJs_forLoop_map.
  - destruct (ServerJs.below expectedCount prompts); reflexivity.
Qed.

Lemma ServerJs_mainContentStage_forLoop (prompts : list jsstring) :
  ServerJs.mainContentStage promptText expectedCount prompts
  = ServerJs.forLoop expectedCount (fun x => x) [stripMarkup promptText] prompts.
Proof.
  unfold ServerJs.mainContentStage. simpl.
  destruct (ServerJs.below expectedCount prompts); reflexivity.
Qed.

Lemma ServerJs_paragraphStage_forLoop (prompts : list jsstring) :
  ServerJs.paragraphStage promptText expectedCount prompts
  = ServerJs.forLoop expectedCount (fun x => x)
      (map (fun item => removeMarkdown (trim item))
         (jsSplit paragraphPattern promptText)) prompts.
Proof.
  unfold ServerJs.paragraphStage.
  now rewrite ServerJs_forLoop_guard, ServerJs_forLoop_map.
Qed.

Lemma ServerJs_extract_forLoop :
  ServerJs.extract promptText expectedCount
  = ServerJs.forLoop expectedCount (fun x => x) (serverJsCandidates promptText) [].
Proof.
  unfold ServerJs.extract, serverJsCandidates.
  rewrite ServerJs_paragraphStage_forLoop, ServerJs_mainContentStage_forLoop,
    ServerJs_numberedStage_forLoop, ServerJs_structuredStage_forLoop.
  now rewrite !ServerJs_forLoop_app.
Qed.

(** The loop keeps the substantial candidates until the count is reached. *)
Lemma ServerJs_forLoop_firstn (candidates prompts : list jsstring) :
  ServerJs.forLoop expectedCount (fun x => x) candidates prompts
  = prompts ++ firstn (Z.to_nat expectedCount - length prompts)
                 (filter substantial candidates).
Proof.
  revert prompts; induction candidates as [|x rest IH]; intros prompts; simpl.
  - now rewrite firstn_nil, app_nil_r.
  - unfold ServerJs.below.
    destruct (Z.of_nat (length prompts) <? expectedCount)%Z eqn:E.
    + apply Z.ltb_lt in E. rewrite IH. unfold ServerJs.tryPush, substantial.
      destruct (100 <? length x)%nat; [|reflexivity].
      rewrite length_app, <- app_assoc. simpl. f_equal.
      replace (Z.to_nat expectedCount - length prompts)
        with (S (Z.to_nat expectedCount - (length prompts + 1))) by lia.
      reflexivity.
    + apply Z.ltb_ge in E.
      replace (Z.to_nat expectedCount - length prompts) with 0 by lia.
      simpl. now rewrite app_nil_r.
Qed.

Lemma ServerJs_extract_firstn :
  ServerJs.extract promptText expectedCount
  = firstn (Z.to_nat expectedCount)
      (filter substantial (serverJsCandidates promptText)).
Proof.
  rewrite ServerJs_extract_forLoop, ServerJs_forLoop_firstn. simpl.
  now rewrite Nat.sub_0_r.
Qed.

End Cascade.

Section CascadePart000.
Variable toLowerCase : jsstring -> jsstring.
Variable promptText : jsstring.
Variable expectedCount : Z.

Lemma Part000_forLoop_map (clean : jsstring -> jsstring) (items : list jsstring)
    (st : Part000.state) :
  Part000.forLoop toLowerCase expectedCount clean items st
  = Part000.forLoop toLowerCase expectedCount (fun x => x) (map clean items) st.
Proof.
  revert st; induction items as [|item rest IH]; intros st; simpl; [reflexivity|].
  destruct (Part000.below expectedCount st); [apply IH|reflexivity].
Qed.

Lemma Part000_forLoop_full (clean : jsstring -> jsstring) (items : list jsstring)
    (st : Part000.state) :
  Part000.below expectedCount st = false ->
  Part000.forLoop toLowerCase expectedCount clean items st = st.
Proof. intros H. destruct items; simpl; [reflexivity|now rewrite H]. Qed.

Lemma Part000_forLoop_guard (clean : jsstring -> jsstring) (items : list jsstring)
    (st : Part000.state) :
  (if Part000.below expectedCount st
   then Part000.forLoop toLowerCase expectedCount clean items st else st)
  = Part000.forLoop toLowerCase expectedCount clean items st.
Proof.
  destruct (Part000.below expectedCount st) eqn:E; [reflexivity|].
  symmetry. now apply Part000_forLoop_full.
Qed.

Lemma Part000_forLoop_app (clean : jsstring -> jsstring) (a b : list jsstring)
    (st : Part000.state) :
  Part000.forLoop toLowerCase expectedCount clean (a ++ b) st
  = Part000.forLoop toLowerCase expectedCount clean b
      (Part000.forLoop toLowerCase expectedCount clean a st).
Proof.
  revert st; induction a as [|x a IH]; intros st; simpl; [reflexivity|].
  destruct (Part000.below expectedCount st) eqn:E; [apply IH|].
  symmetry. now apply Part000_forLoop_full.
Qed.

Lemma Part000_structuredStage_forLoop (st : Part000.state) :
  Part000.structuredStage toLowerCase promptText expectedCount st
  = Part000.forLoop toLowerCase expectedCount (fun x => x)
      (structuredCandidates promptText) st.
Proof.
  unfold Part000.structuredStage, structuredCandidates.
  destruct (jsMatch structuredPattern promptText) as [[|m ms]|]; try reflexivity.
  apply Part000_forLoop_map.
Qed.

Lemma Part000_sectionStage_forLoop (st : Part000.state) :
  Part000.sectionStage toLowerCase promptText expectedCount st
  = Part000.forLoop toLowerCase expectedCount (fun x => x)
      (map (fun item => removeMarkdown (trim item))
         (skipn 1 (jsSplit sectionPattern promptText))) st.
Proof.
  unfold Part000.sectionStage.
  now rewrite Part000_forLoop_guard, Part000_forLoop_map.
Qed.

Lemma Part000_numberedStage_forLoop (st : Part000.state) :
  Part000.numberedStage toLowerCase promptText expectedCount st
  = Part000.forLoop toLowerCase expectedCount (fun x => x)
      (map (fun item => removeMarkdown (trim item)) (numberedPieces promptText)) st.
Proof.
  unfold Part000.numberedStage, numberedPieces.
  destruct (1 <? _)%nat.
  - now rewrite Part000_forLoop_guard, Part000_forLoop_map.
  - destruct (Part000.below expectedCount st); reflexivity.
Qed.

Lemma Part000_mainContentStage_forLoop (st : Part000.state) :
  Part000.mainContentStage toLowerCase promptText expectedCount st
  = Part000.forLoop toLowerCase expectedCount (fun x => x)
      [stripMarkup promptText] st.
Proof.
  unfold Part000.mainContentStage. simpl.
  destruct (Part000.below expectedCount st); reflexivity.
Qed.

Lemma Part000_paragraphStage_forLoop (st : Part000.state) :
  Part000.paragraphStage toLowerCase promptText expectedCount st
  = Part000.forLoop toLowerCase expectedCount (fun x => x)
      (map (fun item => removeMarkdown (trim item))
         (jsSplit paragraphPattern promptText)) st.
Proof.
  unfold Part000.paragraphStage.
  now rewrite Part000_forLoop_guard, Part000_forLoop_map.
Qed.

Lemma Part000_extract_forLoop :
  Part000.extract toLowerCase promptText expectedCount
  = Part000.forLoop toLowerCase expectedCount (fun x => x)
      (part000Candidates promptText) empty.
Proof.
  unfold Part000.extract, part000Candidates. fold empty.
  rewrite Part000_paragraphStage_forLoop, Part000_mainContentStage_forLoop,
    Part000_numberedStage_forLoop, Part000_sectionStage_forLoop,
    Part000_structuredStage_forLoop.
  now rewrite !Part000_forLoop_app.
Qed.

(** The filter only appends. *)
Lemma tryPush_appends (st : Part000.state) (x : jsstring) :
  prefix (Part000.prompts st) (Part000.prompts (Part000.tryPush toLowerCase st x)).
Proof.
  unfold Part000.tryPush. destruct (_ && _); simpl.
  - now exists [x].
  - exists []. now rewrite app_nil_r.
Qed.

Lemma tryPush_length (st : Part000.state) (x : jsstring) :
  length (Part000.prompts (Part000.tryPush toLowerCase st x))
  <= S (length (Part000.prompts st)).
Proof.
  unfold Part000.tryPush. destruct (_ && _); simpl; [|lia].
  rewrite length_app. simpl. lia.
Qed.

Lemma collect_appends (candidates : list jsstring) (st : Part000.state) :
  prefix (Part000.prompts st) (Part000.prompts (collect toLowerCase candidates st)).
Proof.
  revert st; induction candidates as [|x rest IH]; intros st; simpl.
  - exists []. now rewrite app_nil_r.
  - destruct (IH (Part000.tryPush toLowerCase st x)) as [w Hw].
    destruct (tryPush_appends st x) as [w' Hw'].
    exists (w' ++ w). unfold collect in *. simpl. rewrite Hw, Hw'.
    now rewrite app_assoc.
Qed.

(** The bound on the count only cuts the list of collected prompts. *)
Lemma Part000_forLoop_firstn (candidates : list jsstring) (st : Part000.state) :
  length (Part000.prompts st) <= Z.to_nat expectedCount ->
  Part000.prompts
    (Part000.forLoop toLowerCase expectedCount (fun x => x) candidates st)
  = firstn (Z.to_nat expectedCount)
      (Part000.prompts (collect toLowerCase candidates st)).
Proof.
  revert st; induction candidates as [|x rest IH]; intros st Hlen; simpl.
  - now rewrite firstn_all2.
  - unfold Part000.below.
    destruct (Z.of_nat (length (Part000.prompts st)) <? expectedCount)%Z eqn:E.
    + apply Z.ltb_lt in E. apply IH.
      pose proof (tryPush_length st x). lia.
    + apply Z.ltb_ge in E.
      destruct (collect_appends rest (Part000.tryPush toLowerCase st x)) as [w Hw].
      destruct (tryPush_appends st x) as [w' Hw'].
      unfold collect in *. rewrite Hw, Hw', <- app_assoc.
      replace (Z.to_nat expectedCount) with (length (Part000.prompts st) + 0) by lia.
      rewrite firstn_app_2. simpl. now rewrite app_nil_r.
Qed.

Lemma collect_full (candidates : list jsstring) (st : Part000.state) :
  Z.to_nat expectedCount <= length (Part000.prompts st) ->
  length (Part000.prompts (collect toLowerCase candidates st))
  <= Z.to_nat expectedCount ->
  collect toLowerCase candidates st = st.
Proof.
  revert st; induction candidates as [|x rest IH]; intros st Hfull Hlen;
    [reflexivity|].
  change (collect toLowerCase (x :: rest) st)
    with (collect toLowerCase rest (Part000.tryPush toLowerCase st x)) in *.
  destruct (collect_appends rest (Part000.tryPush toLowerCase st x)) as [w Hw].
  rewrite Hw, length_app in Hlen.
  assert (Hx : Part000.tryPush toLowerCase st x = st).
  { unfold Part000.tryPush in *. destruct (_ && _); [|reflexivity].
    simpl in Hlen. rewrite length_app in Hlen. simpl in Hlen. lia. }
  rewrite Hx in *. apply IH; [assumption|]. rewrite Hw, length_app. lia.
Qed.

(** When the collected prompts are no more than asked for, the bound
    changes nothing, in [prompts] and in [seenPrompts]. *)
Lemma Part000_forLoop_collect (candidates : list jsstring) (st : Part000.state) :
  length (Part000.prompts (collect toLowerCase candidates st))
  <= Z.to_nat expectedCount ->
  Part000.forLoop toLowerCase expectedCount (fun x => x) candidates st
  = collect toLowerCase candidates st.
Proof.
  revert st; induction candidates as [|x rest IH]; intros st Hlen;
    [reflexivity|].
  cbn [Part000.forLoop]. unfold Part000.below.
  destruct (Z.of_nat (length (Part000.prompts st)) <? expectedCount)%Z eqn:E.
  - now apply IH.
  - apply Z.ltb_ge in E. symmetry. apply collect_full; [lia|assumption].
Qed.

Lemma Part000_extract_firstn :
  Part000.prompts (Part000.extract toLowerCase promptText expectedCount)
  = firstn (Z.to_nat expectedCount)
      (Part000.prompts (collect toLowerCase (part000Candidates promptText) empty)).
Proof.
  rewrite Part000_extract_forLoop. apply Part000_forLoop_firstn. simpl. lia.
Qed.

End CascadePart000.

(** ** The padding loop in closed form *)

Lemma rem_of_nat (i m : nat) : m <> 0 ->
  Z.rem (Z.of_nat i) (Z.of_nat m) = Z.of_nat (i mod m).
Proof.
  intros Hm. rewrite Z.rem_mod_nonneg by lia. symmetry. apply Nat2Z.inj_mod.
Qed.

Lemma arrayGet_nth (A : Type) (a : list A) (i : nat) (d : A) :
  i < length a -> arrayGet a (Z.of_nat i) = Some (nth i a d).
Proof.
  intros H. unfold arrayGet.
  destruct (Z.of_nat i <? 0)%Z eqn:E; [apply Z.ltb_lt in E; lia|].
  rewrite Nat2Z.id. now apply nth_error_nth'.
Qed.

Lemma ServerJs_variation_at (b : jsstring) (i : nat) :
  ServerJs.createPromptVariation b (Z.of_nat i) = Some (serverJsVariation i).
Proof.
  unfold ServerJs.createPromptVariation, serverJsVariation.
  change (Z.of_nat (length (ServerJs.creativeVariations (Z.of_nat i))))
    with (Z.of_nat 4).
  rewrite rem_of_nat by discriminate. apply arrayGet_nth.
  change (length (ServerJs.creativeVariations (Z.of_nat i))) with 4.
  apply Nat.mod_upper_bound. discriminate.
Qed.

Lemma Part000_variation_at (b : jsstring) (i : nat) :
  Part000.createPromptVariation b (Z.of_nat i) = Some (part000Variation i).
Proof.
  unfold Part000.createPromptVariation, part000Variation.
  change (Z.of_nat (length (Part000.creativeVariations (Z.of_nat i))))
    with (Z.of_nat 10).
  rewrite rem_of_nat by discriminate. apply arrayGet_nth.
  change (length (Part000.creativeVariations (Z.of_nat i))) with 10.
  apply Nat.mod_upper_bound. discriminate.
Qed.

Lemma slice0_nil (A : Type) (to : Z) : slice0 (@nil A) to = [].
Proof. unfold slice0. apply firstn_nil. Qed.

Lemma slice0_short (A : Type) (a : list A) (to : Z) :
  length a <= Z.to_nat to -> slice0 a to = a.
Proof.
  intros H. destruct a as [|x a]; [apply slice0_nil|].
  apply slice0_all. simpl in *. lia.
Qed.

Section Padding.
Variable toLowerCase : jsstring -> jsstring.
Variable promptText : jsstring.
Variable expectedCount : Z.

Lemma ServerJs_whileLoop_closed (fuel : nat) (prompts : list jsstring) :
  Z.to_nat expectedCount - length prompts < fuel ->
  whileLoop (ServerJs.padStep promptText expectedCount) fuel prompts
  = Normal (prompts ++ map serverJsVariation
                         (seq (S (length prompts))
                            (Z.to_nat expectedCount - length prompts)), false).
Proof.
  revert prompts; induction fuel as [|fuel IH]; intros prompts Hfuel; [lia|].
  simpl. unfold ServerJs.padStep, ServerJs.below.
  destruct (Z.of_nat (length prompts) <? expectedCount)%Z eqn:E.
  - apply Z.ltb_lt in E.
    replace (Z.of_nat (length prompts) + 1)%Z with (Z.of_nat (S (length prompts)))
      by lia.
    rewrite ServerJs_variation_at, IH by (rewrite length_app; simpl; lia).
    rewrite length_app, <- app_assoc. simpl.
    replace (Z.to_nat expectedCount - length prompts)
      with (S (Z.to_nat expectedCount - (length prompts + 1))) by lia.
    simpl. now rewrite Nat.add_1_r.
  - apply Z.ltb_ge in E.
    replace (Z.to_nat expectedCount - length prompts) with 0 by lia.
    simpl. now rewrite app_nil_r.
Qed.

Lemma firstn_seq_min (n start len : nat) :
  firstn n (seq start len) = seq start (Nat.min n len).
Proof.
  revert start len; induction n as [|n IH]; intros start [|len]; simpl;
    try reflexivity.
  now rewrite IH.
Qed.

Lemma firstn_padded (A : Type) (f : nat -> A) (l : list A) (n : nat) :
  firstn n l ++ map f (seq (S (length (firstn n l))) (n - length (firstn n l)))
  = firstn n (l ++ map f (seq (S (length l)) n)).
Proof.
  rewrite firstn_app, length_firstn. f_equal.
  rewrite firstn_map, firstn_seq_min.
  destruct (Nat.le_gt_cases n (length l)) as [H|H].
  - rewrite Nat.min_l by lia. replace (n - n) with 0 by lia.
    replace (n - length l) with 0 by lia. reflexivity.
  - rewrite (Nat.min_r n) by lia. rewrite Nat.min_l by lia. reflexivity.
Qed.

Lemma ServerJs_parse_closed :
  ServerJs.parseMultiplePrompts promptText expectedCount
  = Normal
      (firstn (Z.to_nat expectedCount)
         (filter substantial (serverJsCandidates promptText) ++
          map serverJsVariation
            (seq (S (length (filter substantial (serverJsCandidates promptText))))
               (Z.to_nat expectedCount)))).
Proof.
  unfold ServerJs.parseMultiplePrompts, ServerJs.parseMultiplePromptsFuel.
  rewrite ServerJs_whileLoop_closed by lia.
  rewrite ServerJs_extract_firstn, firstn_padded. f_equal.
  apply slice0_short. rewrite length_firstn. lia.
Qed.

(** The padding loop of [src/unnamed/part_000] from a state whose
    [seenPrompts] is [seen]. *)
Lemma Part000_whileLoop_closed (fuel : nat) (st : Part000.state) :
  Z.to_nat expectedCount - length (Part000.prompts st) < fuel ->
  exists final early,
    whileLoop (Part000.padStep toLowerCase promptText expectedCount) fuel st
    = Normal (final, early) /\
    Part000.prompts final
    = Part000.prompts st ++
      padVariations toLowerCase (Part000.seenPrompts st)
        (S (length (Part000.prompts st)))
        (Z.to_nat expectedCount - length (Part000.prompts st)).
Proof.
  revert st; induction fuel as [|fuel IH]; intros st Hfuel; [lia|].
  simpl. unfold Part000.padStep, Part000.below.
  destruct (Z.of_nat (length (Part000.prompts st)) <? expectedCount)%Z eqn:E.
  - apply Z.ltb_lt in E.
    replace (Z.of_nat (length (Part000.prompts st)) + 1)%Z
      with (Z.of_nat (S (length (Part000.prompts st)))) by lia.
    rewrite Part000_variation_at.
    replace (Z.to_nat expectedCount - length (Part000.prompts st))
      with (S (Z.to_nat expectedCount - (length (Part000.prompts st) + 1))) by lia.
    simpl.
    destruct (Part000.has _ _); simpl.
    + exists st, true. now rewrite app_nil_r.
    + destruct (IH (Part000.push st (part000Variation (S (length (Part000.prompts st))))
                      (Part000.normalize toLowerCase
                         (part000Variation (S (length (Part000.prompts st)))))))
        as (final & early & Hrun & Hfinal).
      { simpl. rewrite length_app. simpl. lia. }
      exists final, early. split; [exact Hrun|].
      rewrite Hfinal. simpl. rewrite length_app, <- app_assoc. simpl.
      now rewrite Nat.add_1_r.
  - apply Z.ltb_ge in E. exists st, false.
    replace (Z.to_nat expectedCount - length (Part000.prompts st)) with 0 by lia.
    simpl. now rewrite app_nil_r.
Qed.

End Padding.

Lemma padVariations_length (toLowerCase : jsstring -> jsstring)
    (seen : list jsstring) (i count : nat) :
  length (padVariations toLowerCase seen i count) <= count.
Proof.
  revert seen i; induction count as [|count IH]; intros seen i; simpl; [lia|].
  destruct (Part000.has _ _); simpl; [lia|].
  specialize (IH (Part000.normalize toLowerCase (part000Variation i) :: seen) (S i)).
  lia.
Qed.

Lemma padVariations_firstn (toLowerCase : jsstring -> jsstring)
    (seen : list jsstring) (i count k : nat) :
  firstn k (padVariations toLowerCase seen i count)
  = padVariations toLowerCase seen i (Nat.min k count).
Proof.
  revert seen i k; induction count as [|count IH]; intros seen i [|k]; simpl;
    try reflexivity.
  destruct (Part000.has _ _); simpl; [reflexivity|]. now rewrite IH.
Qed.

(** More turns only add variations, and none after a repeat. *)
Lemma padVariations_more (toLowerCase : jsstring -> jsstring)
    (seen : list jsstring) (i n m : nat) :
  n <= m ->
  exists rest,
    padVariations toLowerCase seen i m
    = padVariations toLowerCase seen i n ++ rest /\
    (length (padVariations toLowerCase seen i n) < n -> rest = []).
Proof.
  revert seen i m; induction n as [|n IH]; intros seen i m Hle.
  - exists (padVariations toLowerCase seen i m). simpl. split; [reflexivity|lia].
  - destruct m as [|m]; [lia|]. simpl.
    destruct (Part000.has _ _); simpl.
    + exists []. auto.
    + destruct (IH (Part000.normalize toLowerCase (part000Variation i) :: seen)
                  (S i) m ltac:(lia)) as (rest & Hrest & Hstop).
      exists rest. rewrite Hrest. split; [reflexivity|]. intros H. apply Hstop. lia.
Qed.

Lemma firstn_prefix (A : Type) (l : list A) (n m : nat) :
  n <= m -> prefix (firstn n l) (firstn m l).
Proof.
  intros H. exists (skipn n (firstn m l)).
  rewrite <- (firstn_skipn n (firstn m l)) at 1.
  now rewrite firstn_firstn, Nat.min_l by lia.
Qed.

Section ClosedForm.
Variable toLowerCase : jsstring -> jsstring.
Variable promptText : jsstring.

Lemma Part000_parse_closed (expectedCount : Z) :
  Part000.parseMultiplePrompts toLowerCase promptText expectedCount
  = Normal
      (firstn (Z.to_nat expectedCount)
         (Part000.prompts (collect toLowerCase (part000Candidates promptText) empty) ++
          padVariations toLowerCase
            (Part000.seenPrompts
               (collect toLowerCase (part000Candidates promptText) empty))
            (S (length (Part000.prompts
                          (collect toLowerCase (part000Candidates promptText) empty))))
            (Z.to_nat expectedCount))).
Proof.
  set (all := collect toLowerCase (part000Candidates promptText) empty).
  unfold Part000.parseMultiplePrompts, Part000.parseMultiplePromptsFuel,
    Part000.padding.
  destruct (@Part000_whileLoop_closed toLowerCase promptText expectedCount
              (S (Z.to_nat expectedCount))
              (Part000.extract toLowerCase promptText expectedCount) ltac:(lia))
    as (final & early & Hrun & Hfinal).
  rewrite Hrun. f_equal.
  rewrite Part000_extract_firstn in Hfinal. fold all in Hfinal.
  rewrite firstn_app, padVariations_firstn.
  assert (Hpad :
    padVariations toLowerCase
      (Part000.seenPrompts (Part000.extract toLowerCase promptText expectedCount))
      (S (length (firstn (Z.to_nat expectedCount) (Part000.prompts all))))
      (Z.to_nat expectedCount
       - length (firstn (Z.to_nat expectedCount) (Part000.prompts all)))
    = padVariations toLowerCase (Part000.seenPrompts all)
        (S (length (Part000.prompts all)))
        (Nat.min (Z.to_nat expectedCount - length (Part000.prompts all))
           (Z.to_nat expectedCount))).
  { rewrite length_firstn.
    destruct (Nat.le_gt_cases (length (Part000.prompts all)) (Z.to_nat expectedCount))
      as [H|H].
    - rewrite Part000_extract_forLoop, Part000_forLoop_collect by exact H.
      fold all. rewrite Nat.min_r, Nat.min_l by lia. reflexivity.
    - rewrite Nat.min_l by lia.
      replace (Z.to_nat expectedCount - Z.to_nat expectedCount) with 0 by lia.
      replace (Z.to_nat expectedCount - length (Part000.prompts all)) with 0 by lia.
      reflexivity. }
  rewrite Hpad in Hfinal. rewrite <- Hfinal.
  apply slice0_short. rewrite Hfinal, length_app, length_firstn.
  pose proof (padVariations_length toLowerCase (Part000.seenPrompts all)
                (S (length (Part000.prompts all)))
                (Nat.min (Z.to_nat expectedCount - length (Part000.prompts all))
                   (Z.to_nat expectedCount))).
  lia.
Qed.

Lemma Part000_parse_prefix (n m : Z) :
  (n <= m)%Z ->
  exists ln lm,
    Part000.parseMultiplePrompts toLowerCase promptText n = Normal ln /\
    Part000.parseMultiplePrompts toLowerCase promptText m = Normal lm /\
    prefix ln lm.
Proof.
  intros Hle. rewrite !Part000_parse_closed.
  set (all := collect toLowerCase (part000Candidates promptText) empty).
  eexists; eexists. split; [reflexivity|]. split; [reflexivity|].
  destruct (@padVariations_more toLowerCase (Part000.seenPrompts all)
              (S (length (Part000.prompts all))) (Z.to_nat n) (Z.to_nat m)
              ltac:(lia)) as (rest & Hrest & Hstop).
  rewrite Hrest, app_assoc.
  set (xn := Part000.prompts all ++
             padVariations toLowerCase (Part000.seenPrompts all)
               (S (length (Part000.prompts all))) (Z.to_nat n)) in *.
  destruct (Nat.le_gt_cases (Z.to_nat n) (length xn)) as [H|H].
  - destruct (@firstn_prefix _ (xn ++ rest) (Z.to_nat n) (Z.to_nat m) ltac:(lia))
      as [w Hw].
    exists w. rewrite Hw. f_equal. rewrite firstn_app.
    replace (Z.to_nat n - length xn) with 0 by lia. simpl. now rewrite app_nil_r.
  - rewrite Hstop, app_nil_r.
    + exists []. rewrite app_nil_r, !firstn_all2 by lia. reflexivity.
    + unfold xn in H. rewrite length_app in H. lia.
Qed.

Lemma ServerJs_parse_prefix (n m : Z) :
  (n <= m)%Z ->
  exists ln lm,
    ServerJs.parseMultiplePrompts promptText n = Normal ln /\
    ServerJs.parseMultiplePrompts promptText m = Normal lm /\
    prefix ln lm.
Proof.
  intros Hle. rewrite !ServerJs_parse_closed.
  set (kept := filter substantial (serverJsCandidates promptText)).
  eexists; eexists. split; [reflexivity|]. split; [reflexivity|].
  replace (Z.to_nat m) with (Z.to_nat n + (Z.to_nat m - Z.to_nat n)) at 2 by lia.
  rewrite seq_app, map_app, app_assoc.
  set (xn := kept ++ map serverJsVariation (seq (S (length kept)) (Z.to_nat n))).
  destruct (@firstn_prefix _ (xn ++ map serverJsVariation
                                (seq (S (length kept) + Z.to_nat n)
                                   (Z.to_nat m - Z.to_nat n)))
              (Z.to_nat n) (Z.to_nat m) ltac:(lia)) as [w Hw].
  exists w. rewrite Hw. f_equal. rewrite firstn_app.
  assert (Z.to_nat n <= length xn).
  { unfold xn. rewrite length_app, length_map, length_seq. lia. }
  replace (Z.to_nat n - length xn) with 0 by lia. simpl. now rewrite app_nil_r.
Qed.

End ClosedForm.

(** ** What the returned prompts are *)

Lemma template_long (before after : string) (index : Z) :
  substantial (js after) = true -> 100 < length (template before index after).
Proof.
  unfold substantial, template. intros H. apply Nat.ltb_lt in H.
  rewrite !length_app. lia.
Qed.

Lemma Part000_variation_long (b : jsstring) (i : Z) (v : jsstring) :
  Part000.createPromptVariation b i = Some v -> 100 < length v.
Proof.
  unfold Part000.createPromptVariation, arrayGet.
  destruct (_ <? 0)%Z; [discriminate|]. intros H. apply nth_error_In in H.
  unfold Part000.creativeVariations, commonVariations in H. simpl in H.
  repeat (destruct H as [<-|H]; [apply template_long; reflexivity|]).
  contradiction.
Qed.

Lemma ServerJs_variation_long (b : jsstring) (i : Z) (v : jsstring) :
  ServerJs.createPromptVariation b i = Some v -> 100 < length v.
Proof.
  unfold ServerJs.createPromptVariation, arrayGet.
  destruct (_ <? 0)%Z; [discriminate|]. intros H. apply nth_error_In in H.
  unfold ServerJs.creativeVariations, commonVariations in H. simpl in H.
  repeat (destruct H as [<-|H]; [apply template_long; reflexivity|]).
  contradiction.
Qed.

Lemma part000Variation_long (i : nat) : 100 < length (part000Variation i).
Proof. apply (@Part000_variation_long [] (Z.of_nat i)), Part000_variation_at. Qed.

Lemma serverJsVariation_long (i : nat) : 100 < length (serverJsVariation i).
Proof. apply (@ServerJs_variation_long [] (Z.of_nat i)), ServerJs_variation_at. Qed.

Lemma Forall_firstn_of (A : Type) (P : A -> Prop) (n : nat) (l : list A) :
  Forall P l -> Forall P (firstn n l).
Proof.
  intros H. apply Forall_forall. intros x Hx.
  rewrite Forall_forall in H. apply H.
  rewrite <- (firstn_skipn n l). apply in_or_app. now left.
Qed.

Section Collected.
Variable toLowerCase : jsstring -> jsstring.

(** What is kept by the filter is kept by the collection. *)
Lemma collect_ind (P : Part000.state -> Prop) (candidates : list jsstring)
    (st : Part000.state) :
  (forall st x, P st -> In x candidates -> P (Part000.tryPush toLowerCase st x)) ->
  P st -> P (collect toLowerCase candidates st).
Proof.
  revert st; induction candidates as [|x rest IH]; intros st Hstep H0; simpl;
    [assumption|].
  apply IH.
  - intros s y Hs Hy. apply Hstep; [assumption|now right].
  - apply Hstep; [assumption|now left].
Qed.

Lemma collect_seen (candidates : list jsstring) :
  Part000.seenPrompts (collect toLowerCase candidates empty)
  = rev (map (Part000.normalize toLowerCase)
           (Part000.prompts (collect toLowerCase candidates empty))).
Proof.
  apply collect_ind with
    (P := fun st => Part000.seenPrompts st
                    = rev (map (Part000.normalize toLowerCase) (Part000.prompts st)));
    [|reflexivity].
  intros st x H _. unfold Part000.tryPush.
  destruct (_ && _); [|assumption]. simpl.
  now rewrite map_app, rev_app_distr, H.
Qed.

Lemma collect_kept (candidates : list jsstring) :
  Forall (fun p => In p candidates /\ 100 < length p)
    (Part000.prompts (collect toLowerCase candidates empty)).
Proof.
  apply collect_ind with
    (P := fun st => Forall (fun p => In p candidates /\ 100 < length p)
                      (Part000.prompts st));
    [|constructor].
  intros st x H Hx. unfold Part000.tryPush.
  destruct (100 <? length x)%nat eqn:E; simpl; [|assumption].
  destruct (negb _); [|assumption]. simpl.
  apply Forall_app. split; [assumption|]. repeat constructor; [assumption|].
  now apply Nat.ltb_lt.
Qed.

Lemma padVariations_long (seen : list jsstring) (i count : nat) :
  Forall (fun p => 100 < length p) (padVariations toLowerCase seen i count).
Proof.
  revert seen i; induction count as [|count IH]; intros seen i; simpl;
    [constructor|].
  destruct (Part000.has _ _); constructor; [apply part000Variation_long|apply IH].
Qed.

Lemma Part000_parse_long (promptText : jsstring) (expectedCount : Z) :
  exists l,
    Part000.parseMultiplePrompts toLowerCase promptText expectedCount = Normal l /\
    Forall (fun p => 100 < length p) l.
Proof.
  rewrite Part000_parse_closed. eexists. split; [reflexivity|].
  apply Forall_firstn_of, Forall_app. split.
  - eapply Forall_impl; [|apply collect_kept]. simpl. tauto.
  - apply padVariations_long.
Qed.

End Collected.

Lemma ServerJs_parse_long (promptText : jsstring) (expectedCount : Z) :
  exists l,
    ServerJs.parseMultiplePrompts promptText expectedCount = Normal l /\
    Forall (fun p => 100 < length p) l.
Proof.
  rewrite ServerJs_parse_closed. eexists. split; [reflexivity|].
  apply Forall_firstn_of, Forall_app. split.
  - apply Forall_forall. intros x Hx. apply filter_In in Hx as [_ Hx].
    now apply Nat.ltb_lt.
  - apply Forall_map, Forall_forall. intros i _. apply serverJsVariation_long.
Qed.

(** ** Why [src/unnamed/part_000] can return too few prompts *)

Section Shortfall.
Variable toLowerCase : jsstring -> jsstring.
Hypothesis lowers : Part000.LowersAscii toLowerCase.

Lemma normalize_variation (i : nat) :
  Part000.normalize toLowerCase (part000Variation i)
  = Part000.normalize Part000.asciiLowerCase (part000Variation i).
Proof.
  unfold Part000.normalize. rewrite lowers; [reflexivity|].
  apply (@Part000_variation_ascii [] (Z.of_nat i)), Part000_variation_at.
Qed.

(** The first ten variations have different normalized forms. *)
Lemma variations_distinct (a b : nat) :
  1 <= a -> a < b -> b <= 10 ->
  Part000.normalize toLowerCase (part000Variation a)
  <> Part000.normalize toLowerCase (part000Variation b).
Proof.
  intros Ha Hab Hb. rewrite !normalize_variation.
  assert (Hcases : In a (seq 1 9) /\ In b (seq 2 9)) by (split; apply in_seq; lia).
  destruct Hcases as [Hina Hinb]. simpl in Hina, Hinb.
  repeat (destruct Hina as [<-|Hina]; [|]); try contradiction;
    repeat (destruct Hinb as [<-|Hinb]; [|]); try contradiction; try lia;
    intros E; vm_compute in E; discriminate E.
Qed.

(** When the padding stops before [count] variations, the variation it
    stopped at repeats a prompt that was seen before the padding began. *)
Lemma padVariations_stop (seen0 : list jsstring) (first count : nat) :
  forall k,
  length (padVariations toLowerCase
            (rev (map (fun i => Part000.normalize toLowerCase (part000Variation i))
                    (seq first k)) ++ seen0) (first + k) count) < count ->
  (forall a b, first <= a -> a < b ->
     b <= first + k +
          length (padVariations toLowerCase
                    (rev (map (fun i => Part000.normalize toLowerCase
                                          (part000Variation i)) (seq first k))
                     ++ seen0) (first + k) count) ->
     Part000.normalize toLowerCase (part000Variation a)
     <> Part000.normalize toLowerCase (part000Variation b)) ->
  In (Part000.normalize toLowerCase
        (part000Variation
           (first + k +
            length (padVariations toLowerCase
                      (rev (map (fun i => Part000.normalize toLowerCase
                                            (part000Variation i)) (seq first k))
                       ++ seen0) (first + k) count))))
     seen0.
Proof.
  induction count as [|count IH]; intros k; [simpl; lia|].
  cbn [padVariations].
  destruct (Part000.has _ _) eqn:E.
  - cbn [length]. intros _ Hd. rewrite Nat.add_0_r in *. apply has_In in E.
    apply in_app_or in E as [E|E]; [|assumption].
    apply in_rev, in_map_iff in E as (a & Ea & Hin).
    apply in_seq in Hin. exfalso. apply (Hd a (first + k)); [lia|lia|lia|].
    exact Ea.
  - cbn [length]. intros Hlen Hd.
    specialize (IH (S k)).
    rewrite seq_S, map_app, rev_app_distr, Nat.add_succ_r in IH.
    cbn [map rev app Nat.add] in IH.
    rewrite Nat.add_succ_r. apply IH; [lia|].
    intros a b H1 H2 H3. apply Hd; lia.
Qed.

Lemma Part000_shortfall (promptText : jsstring) (expectedCount : Z)
    (l : list jsstring) :
  (1 <= expectedCount <= 10)%Z ->
  Part000.parseMultiplePrompts toLowerCase promptText expectedCount = Normal l ->
  (Z.of_nat (length l) < expectedCount)%Z ->
  exists p,
    In p l /\ In p (part000Candidates promptText) /\
    Part000.normalize toLowerCase p
    = Part000.normalize toLowerCase (part000Variation (S (length l))).
Proof.
  intros Hn Hparse Hlen. rewrite Part000_parse_closed in Hparse.
  injection Hparse as <-.
  set (all := collect toLowerCase (part000Candidates promptText) empty) in *.
  set (pads := padVariations toLowerCase (Part000.seenPrompts all)
                 (S (length (Part000.prompts all))) (Z.to_nat expectedCount)) in *.
  rewrite length_firstn in Hlen.
  assert (Hshort : length (Part000.prompts all ++ pads) < Z.to_nat expectedCount)
    by lia.
  rewrite firstn_all2 in * by lia. rewrite length_app in Hshort.
  pose proof (@padVariations_stop (Part000.seenPrompts all)
                (S (length (Part000.prompts all))) (Z.to_nat expectedCount) 0) as H.
  cbn [seq map rev app] in H. rewrite !Nat.add_0_r in H. fold pads in H.
  assert (Hin : In (Part000.normalize toLowerCase
                      (part000Variation (S (length (Part000.prompts all) + length pads))))
                   (Part000.seenPrompts all)).
  { apply H; [lia|]. intros a b H1 H2 H3. apply variations_distinct; lia. }
  unfold all in Hin at 2. rewrite collect_seen in Hin. fold all in Hin.
  apply in_rev, in_map_iff in Hin as (p & Hp & Hinp).
  exists p. split; [apply in_or_app; now left|]. split.
  - pose proof (collect_kept toLowerCase (part000Candidates promptText)) as Hk.
    rewrite Forall_forall in Hk. now apply Hk.
  - rewrite Hp, length_app. reflexivity.
Qed.

End Shortfall.

(** The result of [src/unnamed/part_000] is never empty. *)
Lemma Part000_parse_nonempty (toLowerCase : jsstring -> jsstring)
    (promptText : jsstring) (expectedCount : Z) :
  (1 <= expectedCount)%Z ->
  exists l,
    Part000.parseMultiplePrompts toLowerCase promptText expectedCount = Normal l /\
    (1 <= Z.of_nat (length l) <= expectedCount)%Z.
Proof.
  intros Hn.
  destruct (@Part000_parse_spec toLowerCase promptText expectedCount ltac:(lia)
              (S (Z.to_nat expectedCount)) ltac:(lia))
    as (st & early & _ & Hparse & Hinv & Hend).
  exists (Part000.prompts st). split; [exact Hparse|].
  pose proof (inv_count Hinv) as Hc. unfold bounded in Hc.
  destruct early; [|lia].
  destruct Hend as (_ & v & _ & Hin).
  destruct (Part000.prompts st); [contradiction|]. simpl in *. lia.
Qed.

(** ** The request handlers *)

Lemma numImages_value (parsed : number) :
  numImages parsed
  = Integer match parsed with
            | NaN => 1
            | Integer k => if (k <? 1)%Z then 1 else if (5 <? k)%Z then 5 else k
            | Infinity negative => if negative then 1 else 5
            end.
Proof.
  destruct parsed as [|k|[|]]; try reflexivity.
  unfold numImages. destruct k as [|p|p]; simpl; f_equal.
  - destruct (Z.pos p <? 1)%Z eqn:E1; [apply Z.ltb_lt in E1; lia|].
    destruct (5 <? Z.pos p)%Z eqn:E5;
      [apply Z.ltb_lt in E5|apply Z.ltb_ge in E5]; lia.
Qed.

Lemma numImages_range (parsed : number) :
  exists z, numImages parsed = Integer z /\ (1 <= z <= 5)%Z.
Proof.
  rewrite numImages_value. eexists. split; [reflexivity|].
  destruct parsed as [|k|[|]]; try lia.
  destruct (k <? 1)%Z eqn:E1; [lia|]. apply Z.ltb_ge in E1.
  destruct (5 <? k)%Z eqn:E5; [lia|]. apply Z.ltb_ge in E5. lia.
Qed.

Lemma slice0_nth_error (A : Type) (a : list A) (to : Z) (i : nat) :
  i < Z.to_nat to -> nth_error (slice0 a to) i = nth_error a i.
Proof.
  intros H. unfold slice0.
  destruct (to <? 0)%Z eqn:E; [apply Z.ltb_lt in E; lia|]. apply Z.ltb_ge in E.
  rewrite nth_error_firstn.
  destruct (Nat.ltb_spec i (Z.to_nat (Z.min to (Z.of_nat (length a)))));
    [reflexivity|].
  symmetry. apply nth_error_None. lia.
Qed.

Lemma selectPrompt_some (finalPrompts : list jsstring) (i : nat) :
  finalPrompts <> [] ->
  selectPrompt finalPrompts i
  = Some match nth_error finalPrompts i with
         | Some ((_ :: _) as prompt) => prompt
         | _ => hd [] finalPrompts
         end.
Proof.
  intros H. unfold selectPrompt.
  destruct finalPrompts as [|p rest]; [contradiction|].
  destruct (nth_error (p :: rest) i) as [[|c q]|]; reflexivity.
Qed.

Lemma tryOnLoop_some (finalPrompts : list jsstring) (i remaining : nat) :
  finalPrompts <> [] ->
  tryOnLoop finalPrompts i remaining
  = Normal (map (fun j => match nth_error finalPrompts j with
                          | Some ((_ :: _) as prompt) => prompt
                          | _ => hd [] finalPrompts
                          end) (seq i remaining)).
Proof.
  intros H. revert i; induction remaining as [|r IH]; intros i; simpl;
    [reflexivity|].
  now rewrite selectPrompt_some, IH.
Qed.

Lemma tryOnPrompts_spec (prompts : list jsstring) (count : Z) :
  prompts <> [] -> (1 <= count)%Z ->
  exists sent,
    tryOnPrompts prompts count = Normal sent /\
    length sent = Z.to_nat count /\
    forall i, i < Z.to_nat count ->
      nth_error sent i
      = Some match nth_error prompts i with
             | Some ((_ :: _) as prompt) => prompt
             | _ => hd [] prompts
             end.
Proof.
  intros Hne Hc. unfold tryOnPrompts.
  assert (Hfinal : slice0 prompts count <> []).
  { intros E. pose proof (@slice0_nth_error _ prompts count 0 ltac:(lia)) as H0.
    rewrite E in H0. destruct prompts; [contradiction|discriminate]. }
  rewrite tryOnLoop_some by assumption. eexists. split; [reflexivity|].
  split; [now rewrite length_map, length_seq|].
  intros i Hi. rewrite nth_error_map, nth_error_seq.
  destruct (Nat.ltb_spec i (Z.to_nat count)) as [_|]; [|lia]. simpl.
  rewrite slice0_nth_error by assumption. f_equal.
  assert (Hhd : hd [] (slice0 prompts count) = hd [] prompts).
  { pose proof (@slice0_nth_error _ prompts count 0 ltac:(lia)) as H0.
    destruct (slice0 prompts count), prompts; simpl in *; congruence. }
  now rewrite Hhd.
Qed.

Lemma tryOnPrompts_empty (count : Z) :
  (1 <= count)%Z -> tryOnPrompts [] count = Throw.
Proof.
  intros H. unfold tryOnPrompts. rewrite slice0_nil.
  destruct (Z.to_nat count) eqn:E; [lia|]. reflexivity.
Qed.

(** On a list of non-empty prompts, no longer than the count, the loop sends
    the list and then its first prompt again for every missing one. *)
Lemma tryOnPrompts_completed (prompts : list jsstring) (count : Z) :
  prompts <> [] -> Forall (fun p => p <> []) prompts ->
  length prompts <= Z.to_nat count ->
  tryOnPrompts prompts count
  = Normal (prompts ++ repeat (hd [] prompts) (Z.to_nat count - length prompts)).
Proof.
  intros Hne Hall Hlen. unfold tryOnPrompts.
  rewrite slice0_short by assumption. rewrite tryOnLoop_some by assumption.
  f_equal.
  replace (Z.to_nat count) with (length prompts + (Z.to_nat count - length prompts))
    at 1 by lia.
  rewrite seq_app, map_app. f_equal.
  - clear Hlen Hne. simpl.
    assert (H : forall pre l : list jsstring, Forall (fun p => p <> []) l ->
              map (fun j => match nth_error (pre ++ l) j with
                            | Some ((_ :: _) as prompt) => prompt
                            | _ => hd [] (pre ++ l)
                            end) (seq (length pre) (length l)) = l).
    { intros pre l; revert pre; induction l as [|x l IH]; intros pre Hl;
        [reflexivity|].
      inversion Hl as [|? ? Hx Hl']; subst. simpl. f_equal.
      - rewrite nth_error_app2, Nat.sub_diag by lia. simpl.
        destruct x; [contradiction|reflexivity].
      - specialize (IH (pre ++ [x]) Hl').
        rewrite <- app_assoc, length_app in IH. simpl in IH.
        now rewrite Nat.add_1_r in IH. }
    apply (H [] prompts Hall).
  - simpl. generalize (Z.to_nat count - length prompts) as k.
    assert (H : forall k start, length prompts <= start ->
              map (fun j => match nth_error prompts j with
                            | Some ((_ :: _) as prompt) => prompt
                            | _ => hd [] prompts
                            end) (seq start k) = repeat (hd [] prompts) k).
    { induction k as [|k IH]; intros start Hs; [reflexivity|]. simpl.
      rewrite (proj2 (nth_error_None prompts start)) by lia.
      f_equal. apply IH. lia. }
    intros k. now apply H.
Qed.

(** ** What the clean-up removes *)

Lemma header_only_at_start (pos : nat) (s : jsstring) :
  pos <> 0 -> matchHere headerPattern pos s = None.
Proof. intros H. destruct pos; [contradiction|reflexivity]. Qed.

(** Where the pattern cannot match any more, the text is copied. *)
Lemma replaceAll_copy (p : pattern) (repl : option jsstring -> jsstring)
    (s : jsstring) (pos skip : nat) :
  (forall pos' s', pos <= pos' -> matchHere p pos' s' = None) ->
  replaceAll p repl s pos skip = skipn skip s.
Proof.
  revert pos skip; induction s as [|c s IH]; intros pos skip H.
  - destruct skip; simpl; [now rewrite H|reflexivity].
  - destruct skip as [|k]; simpl.
    + rewrite H by lia. f_equal. apply (IH (S pos) 0). intros. apply H. lia.
    + apply IH. intros. apply H. lia.
Qed.

Lemma removeHeader_suffix (s : jsstring) : exists k, removeHeader s = skipn k s.
Proof.
  unfold removeHeader, jsReplace.
  assert (Hrest : forall t k, replaceAll headerPattern (constant []) t 1 k = skipn k t).
  { intros t k. apply replaceAll_copy. intros pos' s' Hp.
    apply header_only_at_start. lia. }
  destruct s as [|c s]; cbn [replaceAll].
  - exists 0. destruct (matchHere headerPattern 0 []) as [[e cap]|]; reflexivity.
  - destruct (matchHere headerPattern 0 (c :: s)) as [[e cap]|].
    + unfold constant. cbn [app]. destruct (Nat.eqb e 0) eqn:E.
      * exists 0. now rewrite Hrest.
      * apply Nat.eqb_neq in E. exists e. rewrite Hrest.
        destruct e as [|e]; [contradiction|]. simpl. now rewrite Nat.sub_0_r.
    + exists 0. now rewrite Hrest.
Qed.

Lemma withoutStars_app (a b : jsstring) :
  withoutStars (a ++ b) = withoutStars a ++ withoutStars b.
Proof. apply filter_app. Qed.

Lemma closing_withoutStars (s : jsstring) (j : nat) :
  closing s = Some j ->
  withoutStars s = withoutStars (firstn j s ++ skipn (S j) s).
Proof.
  revert j; induction s as [|x s IH]; intros j; simpl; [discriminate|].
  destruct (isStar x) eqn:E; [intros [= <-]; reflexivity|].
  destruct (isLineTerminator x); [discriminate|].
  destruct (closing s) as [i|]; simpl; [|discriminate].
  intros [= <-]. simpl. rewrite E. simpl. f_equal. now apply IH.
Qed.

Lemma closing2_withoutStars (s : jsstring) (j : nat) :
  closing2 s = Some j ->
  withoutStars s = withoutStars (firstn j s ++ skipn (S (S j)) s).
Proof.
  revert j; induction s as [|x s IH]; intros j; [discriminate|].
  cbn [closing2].
  destruct (isStar x && _) eqn:E.
  - intros [= <-]. apply andb_true_iff in E as [Ex Ey].
    destruct s as [|y t]; [discriminate|]. simpl. now rewrite Ex, Ey.
  - destruct (isLineTerminator x); [discriminate|].
    destruct (closing2 s) as [i|]; simpl; [|discriminate].
    intros [= <-].
    change (withoutStars (x :: s)
            = withoutStars (x :: (firstn i s ++ skipn (S (S i)) s))).
    unfold withoutStars at 1 2. cbn [filter]. fold (withoutStars s).
    fold (withoutStars (firstn i s ++ skipn (S (S i)) s)).
    now rewrite (IH i eq_refl).
Qed.

Lemma bold_cons (x : char16) (s : jsstring) (pos : nat) :
  replaceAll boldPattern dollar1 (x :: s) pos 0
  = match s with
    | y :: t =>
        if isStar x && isStar y then
          match closing2 t with
          | Some j =>
              firstn j t ++
              replaceAll boldPattern dollar1 (skipn (S (S j)) t) (S pos + (j + 3)) 0
          | None => x :: replaceAll boldPattern dollar1 s (S pos) 0
          end
        else x :: replaceAll boldPattern dollar1 s (S pos) 0
    | [] => x :: replaceAll boldPattern dollar1 s (S pos) 0
    end.
Proof.
  cbn [replaceAll]. rewrite bold_match.
  destruct s as [|y t]; [reflexivity|].
  destruct (isStar x && isStar y); [|reflexivity].
  destruct (closing2 t) as [j|] eqn:C; [|reflexivity].
  apply closing2_bound in C.
  replace (Nat.eqb (pos + j + 4) pos) with false
    by (symmetry; apply Nat.eqb_neq; lia).
  replace (pos + j + 4 - pos - 1) with (j + 3) by lia.
  rewrite replaceAll_skip by (simpl; lia).
  replace (j + 3) with (S (S (S j))) by lia. reflexivity.
Qed.

Lemma italic_withoutStars (n : nat) :
  forall s pos, length s <= n ->
    withoutStars (replaceAll italicPattern dollar1 s pos 0) = withoutStars s.
Proof.
  induction n as [|n IH]; intros s pos Hn.
  - destruct s; [reflexivity|simpl in Hn; lia].
  - destruct s as [|x s]; [reflexivity|]. simpl in Hn. rewrite italic_cons.
    destruct (isStar x) eqn:E.
    + destruct (closing s) as [j|] eqn:C.
      * rewrite withoutStars_app, IH by (rewrite length_skipn; lia).
        rewrite <- withoutStars_app, <- (closing_withoutStars _ C).
        unfold withoutStars. simpl. now rewrite E.
      * unfold withoutStars. simpl. rewrite E. simpl. apply IH. lia.
    + unfold withoutStars. simpl. rewrite E. simpl. f_equal. apply IH. lia.
Qed.

Lemma bold_withoutStars (n : nat) :
  forall s pos, length s <= n ->
    withoutStars (replaceAll boldPattern dollar1 s pos 0) = withoutStars s.
Proof.
  induction n as [|n IH]; intros s pos Hn.
  - destruct s; [reflexivity|simpl in Hn; lia].
  - destruct s as [|x s]; [reflexivity|]. simpl in Hn. rewrite bold_cons.
    assert (Hkeep : withoutStars (x :: replaceAll boldPattern dollar1 s (S pos) 0)
                    = withoutStars (x :: s)).
    { unfold withoutStars. simpl. destruct (negb (isStar x)); [f_equal|];
        apply IH; lia. }
    destruct s as [|y t]; [exact Hkeep|].
    destruct (isStar x && isStar y) eqn:E; [|exact Hkeep].
    destruct (closing2 t) as [j|] eqn:C; [|exact Hkeep].
    apply andb_true_iff in E as [Ex Ey].
    rewrite withoutStars_app, IH by (rewrite length_skipn; simpl in Hn; lia).
    rewrite <- withoutStars_app, <- (closing2_withoutStars _ C).
    unfold withoutStars. simpl. now rewrite Ex, Ey.
Qed.

Lemma removeMarkdown_withoutStars (s : jsstring) :
  withoutStars (removeMarkdown s) = withoutStars s.
Proof.
  unfold removeMarkdown, jsReplace.
  rewrite italic_withoutStars with (n := length (replaceAll boldPattern dollar1 s 0 0))
    by lia.
  now apply bold_withoutStars with (n := length s).
Qed.

(** ** The index of a variation can be read back *)

Lemma js_injective (a b : string) : js a = js b -> a = b.
Proof.
  revert b; induction a as [|x a IH]; intros [|y b]; simpl; try discriminate;
    [reflexivity|].
  unfold js. simpl. intros [= Hx Hab]. f_equal.
  - rewrite <- (ascii_N_embedding x), <- (ascii_N_embedding y). now f_equal.
  - now apply IH.
Qed.

Lemma to_int_not_nil (z : Z) :
  Z.to_int z <> Decimal.Pos Decimal.Nil /\ Z.to_int z <> Decimal.Neg Decimal.Nil.
Proof.
  assert (E : Z.to_int z = Decimal.norm (Z.to_int z))
    by (rewrite <- to_of, of_to; reflexivity).
  split; intros H; rewrite H in E; discriminate E.
Qed.

Lemma numberToString_injective (i j : Z) :
  numberToString i = numberToString j -> i = j.
Proof.
  unfold numberToString. intros H. apply js_injective in H.
  apply to_int_inj.
  destruct (to_int_not_nil i) as [Hi1 Hi2], (to_int_not_nil j) as [Hj1 Hj2].
  pose proof (NilZero.isi _ Hi1 Hi2) as Ei. pose proof (NilZero.isi _ Hj1 Hj2) as Ej.
  rewrite H in Ei. congruence.
Qed.

Lemma template_injective (before after : string) (i j : Z) :
  template before i after = template before j after -> i = j.
Proof.
  unfold template. intros H. apply app_inv_head in H.
  apply app_inv_tail in H. now apply numberToString_injective.
Qed.

Lemma ServerJs_variation_injective (b1 b2 : jsstring) (i j : Z) (v : jsstring) :
  ServerJs.createPromptVariation b1 i = Some v ->
  ServerJs.createPromptVariation b2 j = Some v -> i = j.
Proof.
  unfold ServerJs.createPromptVariation, arrayGet.
  destruct (_ <? 0)%Z; [discriminate|]. destruct (_ <? 0)%Z; [discriminate|].
  intros Hi Hj. apply nth_error_In in Hi, Hj.
  unfold ServerJs.creativeVariations, commonVariations in Hi, Hj.
  simpl in Hi, Hj.
  repeat (destruct Hi as [Hi|Hi]; [|]); try contradiction;
    repeat (destruct Hj as [Hj|Hj]; [|]); try contradiction;
    rewrite <- Hj in Hi;
    first [ now apply template_injective in Hi
          | exfalso; unfold template in Hi; simpl in Hi; congruence ].
Qed.

Lemma Part000_variation_injective (b1 b2 : jsstring) (i j : Z) (v : jsstring) :
  Part000.createPromptVariation b1 i = Some v ->
  Part000.createPromptVariation b2 j = Some v -> i = j.
Proof.
  unfold Part000.createPromptVariation, arrayGet.
  destruct (_ <? 0)%Z; [discriminate|]. destruct (_ <? 0)%Z; [discriminate|].
  intros Hi Hj. apply nth_error_In in Hi, Hj.
  unfold Part000.creativeVariations, commonVariations in Hi, Hj.
  simpl in Hi, Hj.
  repeat (destruct Hi as [Hi|Hi]; [|]); try contradiction;
    repeat (destruct Hj as [Hj|Hj]; [|]); try contradiction;
    rewrite <- Hj in Hi;
    first [ now apply template_injective in Hi
          | exfalso; unfold template in Hi; simpl in Hi; congruence ].
Qed.

(** ** What a stage accepts *)

Lemma In_firstn_app (A : Type) (a b : list A) (y : A) (k : nat) :
  length a < k -> In y (firstn k (a ++ y :: b)).
Proof.
  intros H. rewrite firstn_app. apply in_or_app. right.
  destruct (k - length a) as [|m] eqn:E; [lia|]. now left.
Qed.

Lemma In_firstn_more (A : Type) (a b : list A) (y : A) (k : nat) :
  In y (firstn k a) -> In y (firstn k (a ++ b)).
Proof. intros H. rewrite firstn_app. apply in_or_app. now left. Qed.

Lemma In_firstn_of (A : Type) (a : list A) (y : A) (k : nat) :
  In y (firstn k a) -> In y a.
Proof. rewrite <- (firstn_skipn k a) at 2. intros H. apply in_or_app. now left. Qed.

Section Acceptance.
Variable toLowerCase : jsstring -> jsstring.
Variable expectedCount : Z.

Lemma ServerJs_forLoop_rejects (candidates : list jsstring) (x : jsstring) :
  length x <= 100 ->
  rejects (ServerJs.forLoop expectedCount (fun c => c) candidates) x.
Proof.
  intros Hx prompts H. rewrite ServerJs_forLoop_firstn in H.
  apply in_app_or in H. destruct H as [H|H]; [assumption|].
  apply In_firstn_of, filter_In in H. destruct H as [_ H].
  unfold substantial in H. apply Nat.ltb_lt in H. lia.
Qed.

Lemma ServerJs_forLoop_accepts (candidates : list jsstring) (y : jsstring) :
  100 < length y ->
  accepts expectedCount (ServerJs.forLoop expectedCount (fun c => c) candidates)
    candidates y.
Proof.
  intros Hy prompts pre post -> Hroom. rewrite ServerJs_forLoop_firstn.
  apply in_or_app. right. rewrite filter_app. cbn [filter].
  replace (substantial y) with true
    by (symmetry; now apply Nat.ltb_lt).
  apply In_firstn_app.
  pose proof (filter_length_le substantial pre). lia.
Qed.

Lemma Part000_forLoop_keeps (candidates : list jsstring) (st : Part000.state)
    (p : jsstring) :
  In p (Part000.prompts st) ->
  In p (Part000.prompts
          (Part000.forLoop toLowerCase expectedCount (fun c => c) candidates st)).
Proof.
  revert st. induction candidates as [|c rest IH]; intros st H; [assumption|].
  cbn [Part000.forLoop]. destruct (Part000.below expectedCount st); [|assumption].
  apply IH. destruct (tryPush_appends toLowerCase st c) as [more ->].
  apply in_or_app. now left.
Qed.

Lemma Part000_forLoop_rejects (candidates : list jsstring) (x : jsstring) :
  length x <= 100 ->
  rejectsSeen (Part000.forLoop toLowerCase expectedCount (fun c => c) candidates) x.
Proof.
  intros Hx. induction candidates as [|c rest IH]; intros st H; [assumption|].
  cbn [Part000.forLoop] in H.
  destruct (Part000.below expectedCount st); [|assumption].
  apply IH in H. unfold Part000.tryPush in H.
  destruct (100 <? length c)%nat eqn:E; [|assumption].
  destruct (negb _); [|assumption]. cbn in H.
  apply in_app_or in H. destruct H as [H|[<-|[]]]; [assumption|].
  apply Nat.ltb_lt in E. lia.
Qed.

Lemma Part000_forLoop_accepts (candidates : list jsstring) (y : jsstring) :
  100 < length y ->
  acceptsNew toLowerCase expectedCount
    (Part000.forLoop toLowerCase expectedCount (fun c => c) candidates)
    candidates y.
Proof.
  intros Hy st pre post ->. revert st.
  induction pre as [|d pre IH]; intros st Hroom Hnew Hpre.
  - cbn [app Part000.forLoop].
    replace (Part000.below expectedCount st) with true
      by (symmetry; apply Z.ltb_lt; simpl in Hroom; lia).
    apply Part000_forLoop_keeps. unfold Part000.tryPush.
    replace (100 <? length y)%nat with true by (symmetry; now apply Nat.ltb_lt).
    rewrite Hnew. cbn. apply in_or_app. right. now left.
  - cbn [app Part000.forLoop].
    replace (Part000.below expectedCount st) with true
      by (symmetry; apply Z.ltb_lt; simpl in Hroom; lia).
    apply IH.
    + pose proof (tryPush_length toLowerCase st d). simpl in Hroom. lia.
    + unfold Part000.tryPush.
      destruct (_ && _); [|assumption].
      unfold Part000.push, Part000.has in *. cbn [Part000.seenPrompts existsb].
      rewrite Hnew, orb_false_r.
      destruct (jsstring_eqb _ _) eqn:E; [|reflexivity].
      apply jsstring_eqb_eq in E. exfalso.
      apply (Hpre d); [now left|now symmetry].
    + intros e He. apply Hpre. now right.
Qed.

End Acceptance.

(** ** What the collection keeps *)

Section Kept.
Variable toLowerCase : jsstring -> jsstring.

Lemma collect_seen_mono (candidates : list jsstring) (st : Part000.state)
    (s : jsstring) :
  In s (Part000.seenPrompts st) ->
  In s (Part000.seenPrompts (collect toLowerCase candidates st)).
Proof.
  revert st. induction candidates as [|c rest IH]; intros st H; [assumption|].
  cbn [collect fold_left]. apply IH. unfold Part000.tryPush.
  destruct (_ && _); [|assumption]. cbn. now right.
Qed.

(** Every candidate of more than 100 code units is kept, or repeats one that
    is. *)
Lemma collect_covers (candidates : list jsstring) (st : Part000.state)
    (c : jsstring) :
  In c candidates -> 100 < length c ->
  In (Part000.normalize toLowerCase c)
     (Part000.seenPrompts (collect toLowerCase candidates st)).
Proof.
  intros Hc Hlong. revert st.
  induction candidates as [|a rest IH]; intros st; [contradiction|].
  cbn [collect fold_left]. destruct Hc as [->|Hc]; [|now apply IH].
  apply collect_seen_mono. unfold Part000.tryPush.
  replace (100 <? length c)%nat with true by (symmetry; now apply Nat.ltb_lt).
  destruct (Part000.has _ _) eqn:E; cbn.
  - now apply has_In.
  - now left.
Qed.

Lemma collect_nodup (candidates : list jsstring) :
  NoDup (map (Part000.normalize toLowerCase)
           (Part000.prompts (collect toLowerCase candidates empty))).
Proof.
  assert (H : Part000.seenPrompts (collect toLowerCase candidates empty)
              = rev (map (Part000.normalize toLowerCase)
                       (Part000.prompts (collect toLowerCase candidates empty))) /\
              NoDup (map (Part000.normalize toLowerCase)
                       (Part000.prompts (collect toLowerCase candidates empty))));
    [|apply H].
  apply collect_ind with
    (P := fun st =>
            Part000.seenPrompts st
            = rev (map (Part000.normalize toLowerCase) (Part000.prompts st)) /\
            NoDup (map (Part000.normalize toLowerCase) (Part000.prompts st))).
  - intros st x [Hseen Hnd] _. unfold Part000.tryPush.
    destruct (100 <? length x)%nat; [|now split].
    destruct (Part000.has _ _) eqn:E; cbn; [now split|].
    rewrite map_app, rev_app_distr. cbn. split; [now rewrite Hseen|].
    apply NoDup_app; [assumption|repeat constructor; intros []|].
    intros s Hs [<-|[]].
    assert (Hin : In (Part000.normalize toLowerCase x) (Part000.seenPrompts st))
      by (rewrite Hseen; now apply in_rev in Hs).
    apply has_In in Hin. congruence.
  - split; [reflexivity|constructor].
Qed.

End Kept.

(** * The claims *)

(** C1 (as amended).  For every text and every count of at least 1 (so also
    in 1..5), [parseMultiplePrompts] of [src/server.js] returns exactly
    [expectedCount] prompts; the one of [src/unnamed/part_000] returns at
    most [expectedCount], and exactly [expectedCount] unless its padding
    loop was left with [break]. *)
Theorem parseMultiplePrompts_count
    (toLowerCase : jsstring -> jsstring) (promptText : jsstring) (expectedCount : Z) :
  (1 <= expectedCount)%Z ->
  (exists l, ServerJs.parseMultiplePrompts promptText expectedCount = Normal l /\
             Z.of_nat (length l) = expectedCount) /\
  (exists st early,
      Part000.padding toLowerCase promptText expectedCount (S (Z.to_nat expectedCount))
      = Normal (st, early) /\
      Part000.parseMultiplePrompts toLowerCase promptText expectedCount
      = Normal (Part000.prompts st) /\
      (Z.of_nat (length (Part000.prompts st)) <= expectedCount)%Z /\
      (early = false -> Z.of_nat (length (Part000.prompts st)) = expectedCount)).
Proof.
  intros Hn. split.
  - apply ServerJs_parse_exact; lia.
  - destruct (@Part000_parse_spec toLowerCase promptText expectedCount ltac:(lia)
                (S (Z.to_nat expectedCount)) ltac:(lia))
      as (st & early & Hpad & Hparse & Hinv & Hend).
    exists st, early. repeat split; try assumption.
    + apply (inv_count Hinv).
    + intros ->. exact Hend.
Qed.

(** The theorem of C1 at [visualArtwork2] and a count of 2. *)
Lemma parseMultiplePrompts_count_witness :
  (exists l, ServerJs.parseMultiplePrompts visualArtwork2 2 = Normal l /\
             Z.of_nat (length l) = 2%Z) /\
  (exists st early,
      Part000.padding Part000.asciiLowerCase visualArtwork2 2 (S (Z.to_nat 2))
      = Normal (st, early) /\
      Part000.parseMultiplePrompts Part000.asciiLowerCase visualArtwork2 2
      = Normal (Part000.prompts st) /\
      (Z.of_nat (length (Part000.prompts st)) <= 2)%Z /\
      (early = false -> Z.of_nat (length (Part000.prompts st)) = 2%Z)).
Proof.
  apply (@parseMultiplePrompts_count Part000.asciiLowerCase visualArtwork2 2). lia.
Defined.

(** C1 as stated fails: on a text that is the variation the padding loop
    would produce next, [src/unnamed/part_000] returns one prompt where two
    were asked for. *)
Lemma exact_count_fails_on_repeated_variation :
  ~ (exists l,
        Part000.parseMultiplePrompts Part000.asciiLowerCase visualArtwork2 2 = Normal l /\
        Z.of_nat (length l) = 2%Z).
Proof.
  intros (l & H & Hl). vm_compute in H. injection H as <-. discriminate Hl.
Qed.

(** C2 (as amended).  For every text and count of at least 1, no two prompts
    returned by [parseMultiplePrompts] of [src/unnamed/part_000] have the
    same normalized form.  Of the candidates of the five stages, those of
    more than 100 code units are kept unless they repeat a kept one, and the
    result is cut from the kept prompts alone when these reach the count:
    variations are appended only when the whole text yields fewer.  For a
    count of 2, one variation fills the second place exactly when a single
    prompt is kept and the variation of index 2 does not repeat it. *)
Theorem parseMultiplePrompts_no_duplicates
    (toLowerCase : jsstring -> jsstring) (promptText : jsstring) (expectedCount : Z) :
  (1 <= expectedCount)%Z ->
  let kept :=
    Part000.prompts (collect toLowerCase (part000Candidates promptText) empty) in
  exists l,
    Part000.parseMultiplePrompts toLowerCase promptText expectedCount = Normal l /\
    NoDup (map (Part000.normalize toLowerCase) l) /\
    Forall (fun p => In p (part000Candidates promptText) /\ 100 < length p) kept /\
    NoDup (map (Part000.normalize toLowerCase) kept) /\
    (forall c, In c (part000Candidates promptText) -> 100 < length c ->
       In (Part000.normalize toLowerCase c)
          (map (Part000.normalize toLowerCase) kept)) /\
    (Z.to_nat expectedCount <= length kept ->
     l = firstn (Z.to_nat expectedCount) kept) /\
    (length kept < Z.to_nat expectedCount ->
     l = kept ++
         padVariations toLowerCase
           (rev (map (Part000.normalize toLowerCase) kept))
           (S (length kept)) (Z.to_nat expectedCount - length kept)) /\
    (expectedCount = 2%Z -> forall p, kept = [p] ->
     l = if Part000.has [Part000.normalize toLowerCase p]
              (Part000.normalize toLowerCase (part000Variation 2))
         then [p] else [p; part000Variation 2]).
Proof.
  intros Hn kept.
  destruct (@Part000_parse_spec toLowerCase promptText expectedCount ltac:(lia)
              (S (Z.to_nat expectedCount)) ltac:(lia))
    as (st & early & Hpad & Hparse & Hinv & Hend).
  exists (Part000.prompts st). split; [assumption|].
  split; [apply (inv_nodup Hinv)|].
  split; [apply collect_kept|].
  split; [apply collect_nodup|].
  assert (Hl : Normal (Part000.prompts st)
               = Normal
                   (firstn (Z.to_nat expectedCount)
                      (kept ++
                       padVariations toLowerCase
                         (rev (map (Part000.normalize toLowerCase) kept))
                         (S (length kept)) (Z.to_nat expectedCount)))).
  { unfold kept. rewrite <- collect_seen, <- Part000_parse_closed. now symmetry. }
  injection Hl as Hl. rewrite Hl, firstn_app. repeat split.
  - intros c Hc Hlong. apply in_rev. rewrite <- map_rev, map_rev.
    unfold kept. rewrite <- collect_seen. now apply collect_covers.
  - intros Hfull. replace (Z.to_nat expectedCount - length kept) with 0 by lia.
    cbn [firstn]. apply app_nil_r.
  - intros Hfew. rewrite firstn_all2 by lia. f_equal.
    rewrite padVariations_firstn. f_equal. lia.
  - intros -> p Hp. clearbody kept. subst kept.
    change (Z.to_nat 2) with 2. rewrite padVariations_firstn.
    cbn [length Nat.sub Nat.min]. cbn [firstn map rev app padVariations].
    now destruct (Part000.has _ _).
Qed.

(** The theorem of C2 at [twoBlocks] and a count of 2. *)
Lemma parseMultiplePrompts_no_duplicates_witness :
  exists l,
    Part000.parseMultiplePrompts Part000.asciiLowerCase twoBlocks 2 = Normal l /\
    NoDup (map (Part000.normalize Part000.asciiLowerCase) l).
Proof.
  destruct (@parseMultiplePrompts_no_duplicates Part000.asciiLowerCase twoBlocks 2
              ltac:(lia)) as (l & Hl & Hnd & _).
  exists l. split; assumption.
Defined.

(** No variation starts with the letter [R]. *)
Lemma variation_first_letter (b : jsstring) (i : Z) (v : jsstring) :
  Part000.createPromptVariation b i = Some v -> hd_error v <> Some 82%N.
Proof.
  unfold Part000.createPromptVariation, arrayGet.
  destruct (_ <? 0)%Z; [discriminate|]. intros H. apply nth_error_In in H.
  unfold Part000.creativeVariations, commonVariations in H. simpl in H.
  repeat (destruct H as [<-|H]; [discriminate|]).
  contradiction.
Qed.

(** C2 as stated fails in both halves.  [src/server.js] has no duplicate
    filter: it returns a text of one paragraph twice, as the whole text and
    as its paragraph.  In [src/unnamed/part_000], for two header-delimited
    blocks with the same content and a count of 2, the second prompt
    returned is no synthesized variation: it is the whole text without its
    first header. *)
Lemma duplicate_block_not_padded :
  ServerJs.parseMultiplePrompts visualArtwork2 2
  = Normal [visualArtwork2; visualArtwork2] /\
  Part000.parseMultiplePrompts Part000.asciiLowerCase twoBlocks 2
  = Normal [blockText; twoBlocksRest] /\
  ~ (exists first basePrompt index variation,
        Part000.parseMultiplePrompts Part000.asciiLowerCase twoBlocks 2
        = Normal [first; variation] /\
        Part000.createPromptVariation basePrompt index = Some variation).
Proof.
  split; [vm_compute; reflexivity|]. split; [vm_compute; reflexivity|].
  intros (first & b & i & v & H & Hv).
  apply variation_first_letter in Hv. apply Hv.
  vm_compute in H. injection H as _ <-. reflexivity.
Qed.

(** C3 (as amended).  In [src/unnamed/part_000], a turn of the padding loop
    compares the normalized variation with [seenPrompts] and leaves the loop
    when it is there; the function always returns normally, and it returns
    fewer than [expectedCount] prompts exactly when the loop was left so,
    the variation repeating a collected prompt.  In [src/server.js] a turn
    of the padding loop appends the variation unchecked, and the function
    returns exactly [expectedCount] prompts. *)
Theorem padding_stops_at_duplicate
    (toLowerCase : jsstring -> jsstring) (promptText : jsstring) (expectedCount : Z) :
  (1 <= expectedCount)%Z ->
  (forall st, Part000.below expectedCount st = true ->
     exists variation,
       Part000.createPromptVariation
         (orElse (nth_error (Part000.prompts st) 0) promptText)
         (Z.of_nat (length (Part000.prompts st)) + 1) = Some variation /\
       Part000.padStep toLowerCase promptText expectedCount st
       = if Part000.has (Part000.seenPrompts st)
              (Part000.normalize toLowerCase variation)
         then Break st
         else Continue (Part000.push st variation
                          (Part000.normalize toLowerCase variation))) /\
  (exists st early,
      Part000.padding toLowerCase promptText expectedCount (S (Z.to_nat expectedCount))
      = Normal (st, early) /\
      Part000.parseMultiplePrompts toLowerCase promptText expectedCount
      = Normal (Part000.prompts st) /\
      (early = true <-> (Z.of_nat (length (Part000.prompts st)) < expectedCount)%Z) /\
      (early = true ->
       exists variation,
         Part000.createPromptVariation
           (orElse (nth_error (Part000.prompts st) 0) promptText)
           (Z.of_nat (length (Part000.prompts st)) + 1) = Some variation /\
         In (Part000.normalize toLowerCase variation)
            (map (Part000.normalize toLowerCase) (Part000.prompts st)))) /\
  (forall prompts, ServerJs.below expectedCount prompts = true ->
     exists variation,
       ServerJs.createPromptVariation
         (orElse (nth_error prompts 0) promptText)
         (Z.of_nat (length prompts) + 1) = Some variation /\
       ServerJs.padStep promptText expectedCount prompts
       = Continue (prompts ++ [variation])) /\
  (exists l,
      ServerJs.parseMultiplePrompts promptText expectedCount = Normal l /\
      Z.of_nat (length l) = expectedCount).
Proof.
  intros Hn. split; [|split; [|split]].
  - intros st Hb.
    destruct (@Part000_padStep_cases toLowerCase promptText expectedCount st)
      as [(v & Hv & Hlt & [[Hnew Hc]|[Hdup Hbr]])|[Hx Hge]].
    + exists v. now rewrite Hnew.
    + exists v. now rewrite Hdup.
    + apply Part000_below_spec in Hb. lia.
  - destruct (@Part000_parse_spec toLowerCase promptText expectedCount ltac:(lia)
                (S (Z.to_nat expectedCount)) ltac:(lia))
      as (st & early & Hpad & Hparse & Hinv & Hend).
    exists st, early. split; [assumption|]. split; [assumption|].
    destruct early.
    + destruct Hend as [Hlt Hv]. split; [tauto|auto].
    + split; [split; [discriminate|lia]|discriminate].
  - intros prompts Hb. unfold ServerJs.padStep. rewrite Hb.
    destruct (@ServerJs_variation_defined
                (orElse (nth_error prompts 0) promptText)
                (Z.of_nat (length prompts) + 1) ltac:(lia)) as [v Hv].
    exists v. cbv zeta. now rewrite Hv.
  - apply ServerJs_parse_exact; lia.
Qed.

(** The theorem of C3 at [visualArtwork2] and a count of 2, where the loop
    stops at once. *)
Lemma padding_stops_at_duplicate_witness :
  exists st,
    Part000.padding Part000.asciiLowerCase visualArtwork2 2 (S (Z.to_nat 2))
    = Normal (st, true) /\
    Part000.parseMultiplePrompts Part000.asciiLowerCase visualArtwork2 2
    = Normal (Part000.prompts st) /\
    (Z.of_nat (length (Part000.prompts st)) < 2)%Z.
Proof.
  destruct (@padding_stops_at_duplicate Part000.asciiLowerCase visualArtwork2 2
              ltac:(lia)) as (_ & (st & early & Hpad & Hparse & Hiff & _) & _).
  exists st.
  assert (early = true) as ->.
  { vm_compute in Hpad. now injection Hpad as _ <-. }
  split; [assumption|]. split; [assumption|]. now apply Hiff.
Defined.

(** C3 as stated fails for [src/server.js]: on a text that is the variation
    of index 3, the text is collected twice, the third prompt is the
    variation that repeats it, and the loop does not stop: three prompts are
    returned, all the same. *)
Lemma serverJs_padding_repeats_collected :
  ServerJs.extract artisticEnhancement3 3
  = [artisticEnhancement3; artisticEnhancement3] /\
  ServerJs.createPromptVariation artisticEnhancement3 3
  = Some artisticEnhancement3 /\
  ServerJs.padStep artisticEnhancement3 3
    [artisticEnhancement3; artisticEnhancement3]
  = Continue [artisticEnhancement3; artisticEnhancement3; artisticEnhancement3] /\
  ServerJs.parseMultiplePrompts artisticEnhancement3 3
  = Normal [artisticEnhancement3; artisticEnhancement3; artisticEnhancement3] /\
  ~ (exists l,
        ServerJs.parseMultiplePrompts artisticEnhancement3 3 = Normal l /\
        (Z.of_nat (length l) < 3)%Z).
Proof.
  repeat split; try (vm_compute; reflexivity).
  intros (l & H & Hl). vm_compute in H. injection H as <-. simpl in Hl. lia.
Qed.

(** C4.  On a numbered list of ten items of more than 100 characters that
    starts with [1. ], and a count of 2, both files return the second and
    the third item: [split] gives no piece before the first item, and the
    loop starts at index 1. *)
Theorem numbered_list_skips_first_item :
  ServerJs.parseMultiplePrompts tenItems 2
  = Normal [numberedItem 2 "b"; numberedItem 3 "c"] /\
  Part000.parseMultiplePrompts Part000.asciiLowerCase tenItems 2
  = Normal [numberedItem 2 "b"; numberedItem 3 "c"].
Proof. split; vm_compute; reflexivity. Qed.

(** C5.  For the empty text and a count of 3, both files return the same
    three prompts, pairwise different. *)
Theorem empty_text_three_variations (toLowerCase : jsstring -> jsstring) :
  Part000.LowersAscii toLowerCase ->
  exists l,
    Part000.parseMultiplePrompts toLowerCase [] 3 = Normal l /\
    ServerJs.parseMultiplePrompts [] 3 = Normal l /\
    length l = 3 /\ NoDup l.
Proof.
  intros Hlow.
  rewrite (@Part000_parse_short toLowerCase Hlow [] 3) by (simpl; lia).
  eexists. split; [vm_compute; reflexivity|].
  split; [vm_compute; reflexivity|].
  split; [reflexivity|].
  repeat constructor; simpl; intros H;
    repeat (destruct H as [H|H]; try discriminate H); contradiction.
Qed.

(** The theorem of C5 with the ASCII lower-casing. *)
Lemma empty_text_three_variations_witness :
  exists l,
    Part000.parseMultiplePrompts Part000.asciiLowerCase [] 3 = Normal l /\
    ServerJs.parseMultiplePrompts [] 3 = Normal l /\
    length l = 3 /\ NoDup l.
Proof.
  apply (@empty_text_three_variations Part000.asciiLowerCase).
  intros s _. reflexivity.
Defined.

(** C6.  In both files [createPromptVariation] does not depend on
    [basePrompt]: it is the entry of the template pool at
    [index % pool size]. *)
Theorem createPromptVariation_ignores_basePrompt (b1 b2 : jsstring) (index : Z) :
  Part000.createPromptVariation b1 index = Part000.createPromptVariation b2 index /\
  ServerJs.createPromptVariation b1 index = ServerJs.createPromptVariation b2 index /\
  Part000.createPromptVariation b1 index
  = arrayGet (Part000.creativeVariations index) (Z.rem index 10) /\
  ServerJs.createPromptVariation b1 index
  = arrayGet (ServerJs.creativeVariations index) (Z.rem index 4).
Proof. repeat split. Qed.

(** C7.  In both files a candidate of exactly 100 code units is not added
    and one of 101 is (in [src/unnamed/part_000], when its normalized form
    is new), in the test itself, in every extraction stage, and in the
    function as a whole: a candidate of 101 code units that the loop reaches
    before the count is full is among the prompts after the stage and among
    those returned, one of 100 never is. *)
Theorem substantial_threshold
    (toLowerCase : jsstring -> jsstring) (promptText : jsstring) (expectedCount : Z)
    (st : Part000.state) (prompts : list jsstring) (x y : jsstring) :
  length x = 100 -> length y = 101 ->
  Part000.has (Part000.seenPrompts st) (Part000.normalize toLowerCase y) = false ->
  (ServerJs.tryPush prompts x = prompts /\
   Part000.tryPush toLowerCase st x = st) /\
  (ServerJs.tryPush prompts y = prompts ++ [y] /\
   Part000.tryPush toLowerCase st y
   = Part000.push st y (Part000.normalize toLowerCase y)) /\
  Forall (fun p => 100 < length p) (ServerJs.extract promptText expectedCount) /\
  Forall (fun p => 100 < length p)
    (Part000.prompts (Part000.extract toLowerCase promptText expectedCount)) /\
  (rejects (ServerJs.structuredStage promptText expectedCount) x /\
   rejects (ServerJs.numberedStage promptText expectedCount) x /\
   rejects (ServerJs.mainContentStage promptText expectedCount) x /\
   rejects (ServerJs.paragraphStage promptText expectedCount) x) /\
  (accepts expectedCount (ServerJs.structuredStage promptText expectedCount)
     (structuredCandidates promptText) y /\
   accepts expectedCount (ServerJs.numberedStage promptText expectedCount)
     (map trim (numberedPieces promptText)) y /\
   accepts expectedCount (ServerJs.mainContentStage promptText expectedCount)
     [stripMarkup promptText] y /\
   accepts expectedCount (ServerJs.paragraphStage promptText expectedCount)
     (map (fun item => removeMarkdown (trim item))
        (jsSplit paragraphPattern promptText)) y) /\
  (rejectsSeen (Part000.structuredStage toLowerCase promptText expectedCount) x /\
   rejectsSeen (Part000.sectionStage toLowerCase promptText expectedCount) x /\
   rejectsSeen (Part000.numberedStage toLowerCase promptText expectedCount) x /\
   rejectsSeen (Part000.mainContentStage toLowerCase promptText expectedCount) x /\
   rejectsSeen (Part000.paragraphStage toLowerCase promptText expectedCount) x) /\
  (acceptsNew toLowerCase expectedCount
     (Part000.structuredStage toLowerCase promptText expectedCount)
     (structuredCandidates promptText) y /\
   acceptsNew toLowerCase expectedCount
     (Part000.sectionStage toLowerCase promptText expectedCount)
     (map (fun item => removeMarkdown (trim item))
        (skipn 1 (jsSplit sectionPattern promptText))) y /\
   acceptsNew toLowerCase expectedCount
     (Part000.numberedStage toLowerCase promptText expectedCount)
     (map (fun item => removeMarkdown (trim item)) (numberedPieces promptText)) y /\
   acceptsNew toLowerCase expectedCount
     (Part000.mainContentStage toLowerCase promptText expectedCount)
     [stripMarkup promptText] y /\
   acceptsNew toLowerCase expectedCount
     (Part000.paragraphStage toLowerCase promptText expectedCount)
     (map (fun item => removeMarkdown (trim item))
        (jsSplit paragraphPattern promptText)) y) /\
  (forall l, ServerJs.parseMultiplePrompts promptText expectedCount = Normal l ->
     ~ In x l) /\
  (forall l,
     Part000.parseMultiplePrompts toLowerCase promptText expectedCount = Normal l ->
     ~ In x l) /\
  (forall pre post,
     serverJsCandidates promptText = pre ++ y :: post ->
     (Z.of_nat (length pre) < expectedCount)%Z ->
     In y (ServerJs.extract promptText expectedCount) /\
     exists l,
       ServerJs.parseMultiplePrompts promptText expectedCount = Normal l /\ In y l) /\
  (forall pre post,
     part000Candidates promptText = pre ++ y :: post ->
     (Z.of_nat (length pre) < expectedCount)%Z ->
     (forall d, In d pre ->
        Part000.normalize toLowerCase d <> Part000.normalize toLowerCase y) ->
     In y (Part000.prompts (Part000.extract toLowerCase promptText expectedCount)) /\
     exists l,
       Part000.parseMultiplePrompts toLowerCase promptText expectedCount = Normal l /\
       In y l).
Proof.
  intros Hx Hy Hnew.
  assert (Hx' : length x <= 100) by lia. assert (Hy' : 100 < length y) by lia.
  split; [|split; [|split; [|split]]].
  - unfold ServerJs.tryPush, Part000.tryPush. rewrite Hx. now split.
  - unfold ServerJs.tryPush, Part000.tryPush. rewrite Hy, Hnew. now split.
  - apply ServerJs_extract_ind; [|constructor].
    intros ps z H _. unfold ServerJs.tryPush.
    destruct (100 <? length z)%nat eqn:E; [|assumption].
    apply Forall_app. split; [assumption|]. repeat constructor. now apply Nat.ltb_lt.
  - apply Part000_extract_ind with (P := fun s => Forall _ (Part000.prompts s));
      [|constructor].
    intros s z H _. unfold Part000.tryPush.
    destruct (100 <? length z)%nat eqn:E; simpl; [|assumption].
    destruct (negb _); [|assumption]. simpl.
    apply Forall_app. split; [assumption|]. repeat constructor. now apply Nat.ltb_lt.
  - split; [|split; [|split; [|split; [|split; [|split; [|split]]]]]].
    + repeat split; intros ps;
        [rewrite ServerJs_structuredStage_forLoop
        |rewrite ServerJs_numberedStage_forLoop
        |rewrite ServerJs_mainContentStage_forLoop
        |rewrite ServerJs_paragraphStage_forLoop];
        now apply ServerJs_forLoop_rejects.
    + repeat split; intros ps pre post E Hroom;
        [rewrite ServerJs_structuredStage_forLoop
        |rewrite ServerJs_numberedStage_forLoop
        |rewrite ServerJs_mainContentStage_forLoop
        |rewrite ServerJs_paragraphStage_forLoop];
        exact (@ServerJs_forLoop_accepts expectedCount _ y Hy' ps pre post E Hroom).
    + repeat split; intros s;
        [rewrite Part000_structuredStage_forLoop
        |rewrite Part000_sectionStage_forLoop
        |rewrite Part000_numberedStage_forLoop
        |rewrite Part000_mainContentStage_forLoop
        |rewrite Part000_paragraphStage_forLoop];
        now apply Part000_forLoop_rejects.
    + repeat split; intros s pre post E Hroom Hs Hpre;
        [rewrite Part000_structuredStage_forLoop
        |rewrite Part000_sectionStage_forLoop
        |rewrite Part000_numberedStage_forLoop
        |rewrite Part000_mainContentStage_forLoop
        |rewrite Part000_paragraphStage_forLoop];
        exact (@Part000_forLoop_accepts toLowerCase expectedCount _ y Hy' s pre post E Hroom Hs Hpre).
    + intros l Hl Hin.
      destruct (ServerJs_parse_long promptText expectedCount) as (l' & Hl' & Hlong).
      rewrite Hl in Hl'. injection Hl' as <-.
      rewrite Forall_forall in Hlong. apply Hlong in Hin. lia.
    + intros l Hl Hin.
      destruct (Part000_parse_long toLowerCase promptText expectedCount)
        as (l' & Hl' & Hlong).
      rewrite Hl in Hl'. injection Hl' as <-.
      rewrite Forall_forall in Hlong. apply Hlong in Hin. lia.
    + intros pre post E Hroom.
      assert (Hin : In y (ServerJs.extract promptText expectedCount)).
      { rewrite ServerJs_extract_forLoop.
        exact (@ServerJs_forLoop_accepts expectedCount _ y Hy' [] pre post E Hroom). }
      split; [assumption|]. eexists. split; [apply ServerJs_parse_closed|].
      apply In_firstn_more. now rewrite <- ServerJs_extract_firstn.
    + intros pre post E Hroom Hpre.
      assert (Hin : In y (Part000.prompts
                            (Part000.extract toLowerCase promptText expectedCount))).
      { rewrite Part000_extract_forLoop.
        exact (@Part000_forLoop_accepts toLowerCase expectedCount _ y Hy' empty pre post
                 E Hroom eq_refl Hpre). }
      split; [assumption|]. eexists. split; [apply Part000_parse_closed|].
      apply In_firstn_more. now rewrite <- Part000_extract_firstn.
Qed.

(** The theorem of C7 at [thresholdItems] and a count of 2: of the two
    numbered items, the one of 100 code units is not taken, the one of 101
    is, by the numbered stage and by the function, in both files. *)
Lemma substantial_threshold_witness :
  (~ In (shortItem 1 "a" 97) (ServerJs.numberedStage thresholdItems 2 []) /\
   In (shortItem 2 "b" 98) (ServerJs.numberedStage thresholdItems 2 []) /\
   exists l,
     ServerJs.parseMultiplePrompts thresholdItems 2 = Normal l /\
     ~ In (shortItem 1 "a" 97) l /\ In (shortItem 2 "b" 98) l) /\
  (~ In (shortItem 1 "a" 97)
       (Part000.prompts
          (Part000.numberedStage Part000.asciiLowerCase thresholdItems 2 empty)) /\
   In (shortItem 2 "b" 98)
      (Part000.prompts
         (Part000.numberedStage Part000.asciiLowerCase thresholdItems 2 empty)) /\
   exists l,
     Part000.parseMultiplePrompts Part000.asciiLowerCase thresholdItems 2
     = Normal l /\
     ~ In (shortItem 1 "a" 97) l /\ In (shortItem 2 "b" 98) l).
Proof.
  destruct (@substantial_threshold Part000.asciiLowerCase thresholdItems 2 empty []
              (shortItem 1 "a" 97) (shortItem 2 "b" 98)
              ltac:(reflexivity) ltac:(reflexivity) ltac:(reflexivity))
    as (_ & _ & _ & _ & (_ & Hsr & _) & (_ & Hsa & _) & (_ & _ & Hpr & _) &
        (_ & _ & Hpa & _) & Hsx & Hpx & Hsy & Hpy).
  assert (Hnew : forall d, In d [shortItem 1 "a" 97] ->
                   Part000.normalize Part000.asciiLowerCase d
                   <> Part000.normalize Part000.asciiLowerCase (shortItem 2 "b" 98))
    by (intros d [<-|[]]; vm_compute; discriminate).
  split; (split; [|split]).
  - intros H. apply Hsr in H. destruct H.
  - apply (Hsa [] [shortItem 1 "a" 97] []); [vm_compute; reflexivity|simpl; lia].
  - destruct (Hsy [shortItem 1 "a" 97] (skipn 2 (serverJsCandidates thresholdItems)))
      as (_ & l & Hl & Hin); [vm_compute; reflexivity|simpl; lia|].
    exists l. split; [assumption|]. split; [now apply Hsx|assumption].
  - intros H. apply Hpr in H. destruct H.
  - apply (Hpa empty [shortItem 1 "a" 97] []);
      [vm_compute; reflexivity|simpl; lia|reflexivity|assumption].
  - destruct (Hpy [shortItem 1 "a" 97] (skipn 2 (part000Candidates thresholdItems)))
      as (_ & l & Hl & Hin); [vm_compute; reflexivity|simpl; lia|assumption|].
    exists l. split; [assumption|]. split; [now apply Hpx|assumption].
Defined.

(** C8 (as amended).  Unwrapping the two kinds of emphasis is idempotent on
    every text; the whole clean-up, with the header removed first and the
    result trimmed, is idempotent on every text whose clean form does not
    start with a header again. *)
Theorem emphasis_stripping_idempotent (s : jsstring) :
  removeMarkdown (removeMarkdown s) = removeMarkdown s /\
  (removeHeader (stripMarkup s) = stripMarkup s ->
   stripMarkup (stripMarkup s) = stripMarkup s).
Proof.
  split; [apply removeMarkdown_idempotent|].
  intros H. unfold stripMarkup at 1. rewrite H. unfold stripMarkup.
  rewrite removeMarkdown_fixed by apply noPair_trim, removeMarkdown_noPair.
  apply trim_idempotent.
Qed.

(** The theorem of C8 at a text with a header and both kinds of emphasis. *)
Lemma emphasis_stripping_idempotent_witness :
  stripMarkup (stripMarkup emphasized) = stripMarkup emphasized.
Proof.
  apply (proj2 (emphasis_stripping_idempotent emphasized)).
  reflexivity.
Defined.

(** C8 as stated fails: unwrapping [**Prompt 1:**] uncovers a header, which
    the second clean-up removes. *)
Lemma stripMarkup_not_idempotent :
  removeMarkdown (removeHeader (removeMarkdown (removeHeader boldHeader)))
  <> removeMarkdown (removeHeader boldHeader) /\
  stripMarkup (stripMarkup boldHeader) <> stripMarkup boldHeader.
Proof. split; vm_compute; discriminate. Qed.

(** C9.  For every text and every count of at least 1, both files return
    normally: with the fuel of the model, or any larger one, the padding loop
    ends, and each of its turns appends exactly one prompt while the count
    is below [expectedCount], leaves the loop, or finds the guard false. *)
Theorem parseMultiplePrompts_terminates
    (toLowerCase : jsstring -> jsstring) (promptText : jsstring) (expectedCount : Z) :
  (1 <= expectedCount)%Z ->
  (forall fuel, Z.to_nat expectedCount < fuel ->
     exists l,
       Part000.parseMultiplePromptsFuel toLowerCase promptText expectedCount fuel
       = Normal l /\
       Part000.parseMultiplePrompts toLowerCase promptText expectedCount = Normal l) /\
  (forall fuel, Z.to_nat expectedCount < fuel ->
     exists l,
       ServerJs.parseMultiplePromptsFuel promptText expectedCount fuel = Normal l /\
       ServerJs.parseMultiplePrompts promptText expectedCount = Normal l) /\
  (forall st,
     (exists variation normalized,
         Part000.padStep toLowerCase promptText expectedCount st
         = Continue (Part000.push st variation normalized) /\
         deficit expectedCount (length (Part000.prompts st) + 1)
         < deficit expectedCount (length (Part000.prompts st))) \/
     Part000.padStep toLowerCase promptText expectedCount st = Break st \/
     Part000.padStep toLowerCase promptText expectedCount st = Exit) /\
  (forall prompts,
     (exists variation,
         ServerJs.padStep promptText expectedCount prompts
         = Continue (prompts ++ [variation]) /\
         deficit expectedCount (length prompts + 1)
         < deficit expectedCount (length prompts)) \/
     ServerJs.padStep promptText expectedCount prompts = Exit).
Proof.
  intros Hn. repeat split.
  - intros fuel Hfuel.
    destruct (@Part000_parse_spec toLowerCase promptText expectedCount ltac:(lia)
                (S (Z.to_nat expectedCount)) ltac:(lia))
      as (st & early & Hpad & _).
    exists (slice0 (Part000.prompts st) expectedCount).
    unfold Part000.parseMultiplePrompts, Part000.parseMultiplePromptsFuel.
    unfold Part000.padding in *.
    rewrite (whileLoop_fuel _ _ Hpad) by lia. now rewrite Hpad.
  - intros fuel Hfuel.
    destruct (@ServerJs_parse_exact promptText expectedCount ltac:(lia)
                (S (Z.to_nat expectedCount)) ltac:(lia)) as (l & Hl & _).
    exists l. split; [|exact Hl].
    unfold ServerJs.parseMultiplePromptsFuel in *.
    destruct (whileLoop _ (S _) _) as [[r e]| |] eqn:E; try discriminate.
    now rewrite (whileLoop_fuel _ _ E) by lia.
  - intros st.
    destruct (@Part000_padStep_cases toLowerCase promptText expectedCount st)
      as [(v & Hv & Hlt & [[Hnew Hc]|[Hdup Hbr]])|[Hx Hge]]; auto.
    left. exists v, (Part000.normalize toLowerCase v). split; [assumption|].
    unfold deficit. lia.
  - intros prompts.
    destruct (@ServerJs_padStep_cases promptText expectedCount prompts)
      as [(v & Hv & Hlt)|[Hx _]]; auto.
    left. exists v. split; [assumption|]. unfold deficit. lia.
Qed.

(** The theorem of C9 at [tenItems], a count of 2 and a fuel of 7. *)
Lemma parseMultiplePrompts_terminates_witness :
  exists l,
    Part000.parseMultiplePromptsFuel Part000.asciiLowerCase tenItems 2 7 = Normal l /\
    Part000.parseMultiplePrompts Part000.asciiLowerCase tenItems 2 = Normal l.
Proof.
  apply (proj1 (@parseMultiplePrompts_terminates Part000.asciiLowerCase tenItems 2
                  ltac:(lia)) 7).
  simpl. lia.
Defined.

(** C10 (as amended).  On every text of at most 100 code units and every
    count of at most 3, the two files return the same list. *)
Theorem variants_agree_on_short_text
    (toLowerCase : jsstring -> jsstring) (promptText : jsstring) (expectedCount : Z) :
  Part000.LowersAscii toLowerCase ->
  length promptText <= 100 -> (expectedCount <= 3)%Z ->
  Part000.parseMultiplePrompts toLowerCase promptText expectedCount
  = ServerJs.parseMultiplePrompts promptText expectedCount.
Proof.
  intros Hlow Hs Hn.
  rewrite (@Part000_parse_short toLowerCase Hlow promptText expectedCount Hs).
  rewrite (@ServerJs_parse_short promptText expectedCount Hs).
  destruct expectedCount as [|p|p].
  - reflexivity.
  - assert (Hp : (p = 1 \/ p = 2 \/ p = 3)%positive) by lia.
    destruct Hp as [-> | [-> | ->]]; vm_compute; reflexivity.
  - reflexivity.
Qed.

(** The theorem of C10 at a short text and a count of 3. *)
Lemma variants_agree_on_short_text_witness :
  Part000.parseMultiplePrompts Part000.asciiLowerCase (js "1. short") 3
  = ServerJs.parseMultiplePrompts (js "1. short") 3.
Proof.
  apply (@variants_agree_on_short_text Part000.asciiLowerCase (js "1. short") 3).
  - intros s _. reflexivity.
  - simpl. lia.
  - lia.
Defined.

(** C10 as stated fails: for the empty text and a count of 4 the fourth
    prompt is the entry 4 of the pool of ten in one file and the entry 0 of
    the pool of four in the other. *)
Lemma variants_differ_on_fourth_variation :
  Part000.parseMultiplePrompts Part000.asciiLowerCase [] 4
  <> ServerJs.parseMultiplePrompts [] 4.
Proof. vm_compute. discriminate. Qed.

(** * Properties beyond the claims *)

(** X1.  [src/server.js], in closed form: the extraction stages keep the
    first [expectedCount] substantial candidates, in the order of the
    stages, and [parseMultiplePrompts] returns the first [expectedCount]
    entries of these followed by the variations numbered from one more than
    their count.  [serverJsVariation i] is what [createPromptVariation]
    returns for the index [i]. *)
Theorem serverJs_closed_form (promptText : jsstring) (expectedCount : Z) :
  ServerJs.extract promptText expectedCount
  = firstn (Z.to_nat expectedCount)
      (filter substantial (serverJsCandidates promptText)) /\
  ServerJs.parseMultiplePrompts promptText expectedCount
  = Normal
      (firstn (Z.to_nat expectedCount)
         (filter substantial (serverJsCandidates promptText) ++
          map serverJsVariation
            (seq (S (length (filter substantial (serverJsCandidates promptText))))
               (Z.to_nat expectedCount)))) /\
  forall basePrompt i,
    ServerJs.createPromptVariation basePrompt (Z.of_nat i)
    = Some (serverJsVariation i).
Proof.
  split; [apply ServerJs_extract_firstn|].
  split; [apply ServerJs_parse_closed|apply ServerJs_variation_at].
Qed.

(** X2.  [src/unnamed/part_000], in closed form: the count only cuts the
    list.  The extraction stages keep the first [expectedCount] of the
    prompts that the duplicate filter collects from all candidates, and
    [parseMultiplePrompts] returns the first [expectedCount] entries of the
    collected prompts followed by the variations that are new, up to the
    first repeat.  [part000Variation i] is what [createPromptVariation]
    returns for the index [i]. *)
Theorem part000_closed_form (toLowerCase : jsstring -> jsstring)
    (promptText : jsstring) (expectedCount : Z) :
  Part000.prompts (Part000.extract toLowerCase promptText expectedCount)
  = firstn (Z.to_nat expectedCount)
      (Part000.prompts (collect toLowerCase (part000Candidates promptText) empty)) /\
  Part000.parseMultiplePrompts toLowerCase promptText expectedCount
  = Normal
      (firstn (Z.to_nat expectedCount)
         (Part000.prompts (collect toLowerCase (part000Candidates promptText) empty) ++
          padVariations toLowerCase
            (Part000.seenPrompts
               (collect toLowerCase (part000Candidates promptText) empty))
            (S (length (Part000.prompts
                          (collect toLowerCase (part000Candidates promptText) empty))))
            (Z.to_nat expectedCount))) /\
  forall basePrompt i,
    Part000.createPromptVariation basePrompt (Z.of_nat i)
    = Some (part000Variation i).
Proof.
  split; [apply Part000_extract_firstn|].
  split; [apply Part000_parse_closed|apply Part000_variation_at].
Qed.

(** X3.  Asking for more prompts never changes the earlier ones: in both
    files the result for a count is the start of the result for any larger
    count. *)
Theorem larger_count_extends_result (toLowerCase : jsstring -> jsstring)
    (promptText : jsstring) (n m : Z) :
  (n <= m)%Z ->
  (exists ln lm,
      ServerJs.parseMultiplePrompts promptText n = Normal ln /\
      ServerJs.parseMultiplePrompts promptText m = Normal lm /\
      prefix ln lm) /\
  (exists ln lm,
      Part000.parseMultiplePrompts toLowerCase promptText n = Normal ln /\
      Part000.parseMultiplePrompts toLowerCase promptText m = Normal lm /\
      prefix ln lm).
Proof.
  intros H. split; [now apply ServerJs_parse_prefix|now apply Part000_parse_prefix].
Qed.

(** The theorem of X3 at [tenItemsIntroduced], for the counts 1 and 3. *)
Lemma larger_count_extends_result_witness :
  (exists ln lm,
      ServerJs.parseMultiplePrompts tenItemsIntroduced 1 = Normal ln /\
      ServerJs.parseMultiplePrompts tenItemsIntroduced 3 = Normal lm /\
      prefix ln lm) /\
  (exists ln lm,
      Part000.parseMultiplePrompts Part000.asciiLowerCase tenItemsIntroduced 1
      = Normal ln /\
      Part000.parseMultiplePrompts Part000.asciiLowerCase tenItemsIntroduced 3
      = Normal lm /\
      prefix ln lm).
Proof.
  apply (@larger_count_extends_result Part000.asciiLowerCase tenItemsIntroduced 1 3).
  lia.
Defined.

(** X4.  In both files, for every text and count, every returned prompt is
    longer than 100 code units, the synthesized ones too; none is empty. *)
Theorem returned_prompts_are_substantial (toLowerCase : jsstring -> jsstring)
    (promptText : jsstring) (expectedCount : Z) :
  (exists l,
      ServerJs.parseMultiplePrompts promptText expectedCount = Normal l /\
      Forall (fun p => 100 < length p) l) /\
  (exists l,
      Part000.parseMultiplePrompts toLowerCase promptText expectedCount = Normal l /\
      Forall (fun p => 100 < length p) l).
Proof. split; [apply ServerJs_parse_long|apply Part000_parse_long]. Qed.

(** X5.  For a count of at least 1, [src/unnamed/part_000] returns at least
    one prompt and at most [expectedCount]: a shortfall never empties the
    result. *)
Theorem part000_result_never_empty (toLowerCase : jsstring -> jsstring)
    (promptText : jsstring) (expectedCount : Z) :
  (1 <= expectedCount)%Z ->
  exists l,
    Part000.parseMultiplePrompts toLowerCase promptText expectedCount = Normal l /\
    (1 <= Z.of_nat (length l) <= expectedCount)%Z.
Proof. apply Part000_parse_nonempty. Qed.

(** The theorem of X5 at [visualArtwork2] and a count of 2. *)
Lemma part000_result_never_empty_witness :
  exists l,
    Part000.parseMultiplePrompts Part000.asciiLowerCase visualArtwork2 2 = Normal l /\
    (1 <= Z.of_nat (length l) <= 2)%Z.
Proof.
  apply (@part000_result_never_empty Part000.asciiLowerCase visualArtwork2 2). lia.
Defined.

(** X6.  For a count of 1 to 10, [src/unnamed/part_000] returns fewer prompts
    than asked for only if one of the returned prompts, taken from the text,
    has the normalized form of the variation that would come next: the
    variations never repeat one another. *)
Theorem shortfall_repeats_a_text_prompt (toLowerCase : jsstring -> jsstring)
    (promptText : jsstring) (expectedCount : Z) (l : list jsstring) :
  Part000.LowersAscii toLowerCase ->
  (1 <= expectedCount <= 10)%Z ->
  Part000.parseMultiplePrompts toLowerCase promptText expectedCount = Normal l ->
  (Z.of_nat (length l) < expectedCount)%Z ->
  exists p,
    In p l /\ In p (part000Candidates promptText) /\
    Part000.normalize toLowerCase p
    = Part000.normalize toLowerCase (part000Variation (S (length l))).
Proof. intros Hl. now apply Part000_shortfall. Qed.

(** The theorem of X6 at [visualArtwork2] and a count of 2. *)
Lemma shortfall_repeats_a_text_prompt_witness :
  exists p,
    In p [visualArtwork2] /\ In p (part000Candidates visualArtwork2) /\
    Part000.normalize Part000.asciiLowerCase p
    = Part000.normalize Part000.asciiLowerCase (part000Variation 2).
Proof.
  apply (@shortfall_repeats_a_text_prompt Part000.asciiLowerCase visualArtwork2 2
           [visualArtwork2]).
  - intros s _. reflexivity.
  - lia.
  - vm_compute. reflexivity.
  - simpl. lia.
Defined.

(** X7.  The try-on handler of both files, on a non-empty array of strings
    and a count of at least 1: the loop does not throw and sends exactly
    [count] prompts; the prompt for image [i] is entry [i] of the array when
    that exists and is not the empty string, and entry 0 otherwise.  On an
    empty array the first turn throws. *)
Theorem tryOn_prompt_selection (prompts : list jsstring) (count : Z) :
  prompts <> [] -> (1 <= count)%Z ->
  (exists sent,
      tryOnPrompts prompts count = Normal sent /\
      length sent = Z.to_nat count /\
      forall i, i < Z.to_nat count ->
        nth_error sent i
        = Some match nth_error prompts i with
               | Some ((_ :: _) as prompt) => prompt
               | _ => hd [] prompts
               end) /\
  tryOnPrompts [] count = Throw.
Proof.
  intros Hne Hc. split; [now apply tryOnPrompts_spec|now apply tryOnPrompts_empty].
Qed.

(** The theorem of X7 at an array of two prompts, the second empty, and
    three images. *)
Lemma tryOn_prompt_selection_witness :
  (exists sent,
      tryOnPrompts [blockText; []] 3 = Normal sent /\
      length sent = Z.to_nat 3 /\
      forall i, i < Z.to_nat 3 ->
        nth_error sent i
        = Some match nth_error [blockText; []] i with
               | Some ((_ :: _) as prompt) => prompt
               | _ => hd [] [blockText; []]
               end) /\
  tryOnPrompts [] 3 = Throw.
Proof.
  apply (@tryOn_prompt_selection [blockText; []] 3); [discriminate|lia].
Defined.

(** X8.  The two handlers together, for a count of at least 1: the try-on
    loop, given the prompts that [parseMultiplePrompts] returned for the
    same count, sends all of them in order; after a shortfall of
    [src/unnamed/part_000] it sends the first prompt again for every missing
    one. *)
Theorem tryOn_completes_with_first_prompt (toLowerCase : jsstring -> jsstring)
    (promptText : jsstring) (expectedCount : Z) :
  (1 <= expectedCount)%Z ->
  (exists l,
      ServerJs.parseMultiplePrompts promptText expectedCount = Normal l /\
      tryOnPrompts l expectedCount = Normal l) /\
  (exists l,
      Part000.parseMultiplePrompts toLowerCase promptText expectedCount = Normal l /\
      tryOnPrompts l expectedCount
      = Normal (l ++ repeat (hd [] l) (Z.to_nat expectedCount - length l))).
Proof.
  intros Hn.
  assert (Hne : forall l : list jsstring,
             Forall (fun p => 100 < length p) l -> Forall (fun p => p <> []) l).
  { intros l H. eapply Forall_impl; [|exact H]. intros p Hp ->. simpl in Hp. lia. }
  split.
  - destruct (@ServerJs_parse_exact promptText expectedCount ltac:(lia)
                (S (Z.to_nat expectedCount)) ltac:(lia)) as (l & Hl & Hlen).
    destruct (ServerJs_parse_long promptText expectedCount) as (l' & Hl' & Hlong).
    unfold ServerJs.parseMultiplePrompts in *. rewrite Hl in Hl'.
    injection Hl' as <-. exists l. split; [exact Hl|].
    rewrite tryOnPrompts_completed.
    + replace (Z.to_nat expectedCount - length l) with 0 by lia.
      simpl. now rewrite app_nil_r.
    + destruct l; [simpl in Hlen; lia|discriminate].
    + now apply Hne.
    + lia.
  - destruct (@Part000_parse_nonempty toLowerCase promptText expectedCount Hn)
      as (l & Hl & Hlen).
    destruct (Part000_parse_long toLowerCase promptText expectedCount)
      as (l' & Hl' & Hlong).
    rewrite Hl in Hl'. injection Hl' as <-. exists l. split; [exact Hl|].
    apply tryOnPrompts_completed.
    + destruct l; [simpl in Hlen; lia|discriminate].
    + now apply Hne.
    + lia.
Qed.

(** The theorem of X8 at [visualArtwork2] and a count of 2, where
    [src/unnamed/part_000] returns one prompt. *)
Lemma tryOn_completes_with_first_prompt_witness :
  (exists l,
      ServerJs.parseMultiplePrompts visualArtwork2 2 = Normal l /\
      tryOnPrompts l 2 = Normal l) /\
  (exists l,
      Part000.parseMultiplePrompts Part000.asciiLowerCase visualArtwork2 2
      = Normal l /\
      tryOnPrompts l 2 = Normal (l ++ repeat (hd [] l) (Z.to_nat 2 - length l))).
Proof.
  apply (@tryOn_completes_with_first_prompt Part000.asciiLowerCase visualArtwork2 2).
  lia.
Defined.

(** X9.  Whatever [parseInt] makes of the requested count, both handlers
    work with a count from 1 to 5: 1 for [NaN], zero, a negative number or
    minus infinity, 5 for more than 5 or infinity, the number itself
    otherwise; and [parseMultiplePrompts] of [src/server.js] then returns
    exactly that many prompts. *)
Theorem numImages_clamps (parsed : number) (promptText : jsstring) :
  exists z l,
    numImages parsed = Integer z /\
    z = match parsed with
        | NaN => 1
        | Integer k => if (k <? 1)%Z then 1 else if (5 <? k)%Z then 5 else k
        | Infinity negative => if negative then 1 else 5
        end%Z /\
    (1 <= z <= 5)%Z /\
    ServerJs.parseMultiplePrompts promptText z = Normal l /\
    Z.of_nat (length l) = z.
Proof.
  destruct (numImages_range parsed) as (z & Hz & Hrange).
  destruct (@ServerJs_parse_exact promptText z ltac:(lia) (S (Z.to_nat z)) ltac:(lia))
    as (l & Hl & Hlen).
  exists z, l. split; [exact Hz|]. split; [|now repeat split].
  rewrite numImages_value in Hz. now injection Hz as <-.
Qed.

(** X10.  Removing the header removes a start of the text and nothing else:
    the pattern is anchored, so the [g] flag finds no second match. *)
Theorem removeHeader_removes_a_start (s : jsstring) :
  exists k, removeHeader s = skipn k s.
Proof. apply removeHeader_suffix. Qed.

(** X11.  Unwrapping emphasis only deletes [*]: the other code units are
    kept, in order, and the text does not grow. *)
Theorem removeMarkdown_only_deletes_stars (s : jsstring) :
  withoutStars (removeMarkdown s) = withoutStars s /\
  length (removeMarkdown s) <= length s.
Proof. split; [apply removeMarkdown_withoutStars|apply removeMarkdown_length]. Qed.

(** X12.  In both files the index can be read back from a variation: two
    calls of [createPromptVariation] that return the same text were given
    the same index, although the pool holds only 4 or 10 templates. *)
Theorem createPromptVariation_injective (b1 b2 : jsstring) (i j : Z) (v : jsstring) :
  (ServerJs.createPromptVariation b1 i = Some v ->
   ServerJs.createPromptVariation b2 j = Some v -> i = j) /\
  (Part000.createPromptVariation b1 i = Some v ->
   Part000.createPromptVariation b2 j = Some v -> i = j).
Proof.
  split; [apply ServerJs_variation_injective|apply Part000_variation_injective].
Qed.

(** The theorem of X12 at [visualArtwork2], the variation of index 2. *)
Lemma createPromptVariation_injective_witness : 2%Z = 2%Z /\ 2%Z = 2%Z.
Proof.
  destruct (@createPromptVariation_injective [] blockText 2 2 visualArtwork2)
    as [Hs Hp].
  split; [apply Hs|apply Hp]; vm_compute; reflexivity.
Defined.
